(** * Climate-index engine of clima.pinda: [data/scripts/calculate_metrics.py]

    A shallow embedding of the index computations (run encoder, calendar-day
    percentile baseline, percentile-exceedance rates, warm-spell index,
    dry/wet spells, trend wrappers, anomaly and decadal aggregation) and the
    properties stated for them.

    Numbers.  The script computes on IEEE doubles held in pandas columns,
    where NaN is the "no value" marker.  A double is modelled here as
    [option Q]: [None] is NaN and [Some q] an exact rational, so arithmetic
    is the exact one, rounding to [n] decimals is rounding of the exact
    value (ties to even), and every comparison with NaN is false, as in
    Python.  Python integers (years, days of year, counters, indices) are
    [Z].

    Tables.  A frame is the list of its rows in index order, a column the
    list of its values; the Series of thresholds indexed by day of year is a
    finite map.  Exceptions are the [Raise] results of the type [res].  The
    two scipy functions the trend tests call are parameters. *)

From Stdlib Require Import ZArith QArith Qround Qminmax Qabs Lia Lqa.
From Equations Require Import Equations.
From Equations.Prop Require Import Logic.
From stdpp Require Import base option list gmap strings sorting.

Local Open Scope Z_scope.

(** ** Doubles with NaN *)

Module Float.

Definition float : Type := option Q.

Definition nan : float := None.

Definition of_Z (z : Z) : float := Some (inject_Z z).

Definition Qltb (x y : Q) : bool := negb (Qle_bool y x).

(** [a > b], [a >= b], [a < b] on doubles: false as soon as one side is NaN. *)
Definition gt (a b : float) : bool :=
  match a, b with
  | Some x, Some y => Qltb y x
  | _, _ => false
  end.

Definition ge (a b : float) : bool :=
  match a, b with
  | Some x, Some y => Qle_bool y x
  | _, _ => false
  end.

Definition lt (a b : float) : bool := gt b a.

Definition sub (a b : float) : float :=
  match a, b with
  | Some x, Some y => Some (Qred (x - y))
  | _, _ => None
  end.

Definition add (a b : float) : float :=
  match a, b with
  | Some x, Some y => Some (Qred (x + y))
  | _, _ => None
  end.

Definition mul (a b : float) : float :=
  match a, b with
  | Some x, Some y => Some (Qred (x * y))
  | _, _ => None
  end.

Definition div (a b : float) : float :=
  match a, b with
  | Some x, Some y => Some (Qred (x / y))
  | _, _ => None
  end.

(** [np.maximum(a, b)]: NaN as soon as one side is NaN. *)
Definition maximum (a b : float) : float :=
  match a, b with
  | Some x, Some y => Some (if Qle_bool x y then y else x)
  | _, _ => None
  end.

(** [pd.notna] / the rows kept by [dropna]. *)
Definition notna (a : float) : bool :=
  match a with Some _ => true | None => false end.


(** Rounding to the nearest integer, ties to even. *)
Definition round_half_even (x : Q) : Z :=
  let f := Qfloor x in
  let r := (x - inject_Z f)%Q in
  if Qltb r (1 # 2) then f
  else if Qltb (1 # 2) r then f + 1
  else if Z.even f then f else f + 1.

(** [round(x, ndigits)] (and [Series.round(ndigits)]) on a finite double. *)
Definition round_Q (x : Q) (ndigits : Z) : Q :=
  let scale := inject_Z (10 ^ ndigits) in
  Qred (inject_Z (round_half_even (x * scale)) / scale).

(** [round(nan, n)] is [nan]. *)
Definition round (x : float) (ndigits : Z) : float :=
  match x with
  | Some q => Some (round_Q q ndigits)
  | None => None
  end.

(** The values of a column that are not NaN, in order ([dropna]). *)
Definition dropna (s : list float) : list Q := omap id s.

Definition Qsum (l : list Q) : Q := foldr Qplus 0%Q l.

(** [Series.mean()]: NaN entries are skipped; NaN when nothing is left. *)
Definition mean (s : list float) : float :=
  let xs := dropna s in
  match xs with
  | [] => None
  | _ => Some (Qred (Qsum xs / inject_Z (Z.of_nat (length xs))))
  end.

(** [Series.sum()]: NaN entries are skipped; 0 when nothing is left. *)
Definition sum (s : list float) : float := Some (Qred (Qsum (dropna s))).

End Float.

Abbreviation float := Float.float.

(** [len(x)] as a Python integer. *)
Definition len {A} (l : list A) : Z := Z.of_nat (length l).
Global Arguments len : simpl never.

(** [arr[i]] on a boolean array, for an index the loops keep inside
    [0 <= i < len(arr)]. *)
Definition arr_at (arr : list bool) (i : Z) : bool :=
  if i <? 0 then false else default false (arr !! Z.to_nat i).

(** ** Consecutive-run helpers *)

(** [_max_consecutive]: the early exit on [not flags.any()] and the scan
    keeping [(max_run, current)]. *)
Definition max_consecutive_step (st : Z * Z) (v : bool) : Z * Z :=
  let '(max_run, current) := st in
  if v then (Z.max max_run (current + 1), current + 1)
  else (max_run, 0).

Definition _max_consecutive (flags : list bool) : Z :=
  if negb (existsb id flags) then 0
  else fst (foldl max_consecutive_step (0, 0) flags).

(** The inner loop of [_count_days_in_spells]:
    [while j < n and arr[j]: j += 1]; its value is the final [j]. *)
Equations? run_end (arr : list bool) (n j : Z) : Z by wf (Z.to_nat (n - j)) lt :=
  run_end arr n j with decide (j < n ∧ arr_at arr j = true) := {
    | left Hc => run_end arr n (j + 1);
    | right _ => j }.
Proof. lia. Qed.

Lemma run_end_bounds arr n j : j <= n -> j <= run_end arr n j <= n.
Proof.
  funelim (run_end arr n j); intros Hle.
  - assert (j + 1 <= n) as Hj by lia.
    match goal with IH : _ -> _ <= run_end _ _ _ <= _ |- _ => specialize (IH Hj) end.
    lia.
  - lia.
Qed.

Lemma run_end_step arr n i :
  i < n -> arr_at arr i = true -> i + 1 <= run_end arr n i <= n.
Proof.
  intros Hi Ha. rewrite run_end_equation_1.
  destruct (decide _) as [Hc | Hn]; [| exfalso; apply Hn; split; assumption]. simpl.
  pose proof (run_end_bounds arr n (i + 1)). lia.
Qed.

(** The outer loop of [_count_days_in_spells], from the state [(i, total)]. *)
Equations? spells_loop (arr : list bool) (n min_duration i total : Z) : Z
  by wf (Z.to_nat (n - i)) lt :=
  spells_loop arr n min_duration i total with decide (i < n) := {
    | left Hi with decide (arr_at arr i = true) := {
      | left Ha =>
          let j := run_end arr n i in
          let run_len := j - i in
          spells_loop arr n min_duration j
            (if run_len >=? min_duration then total + run_len else total);
      | right _ => spells_loop arr n min_duration (i + 1) total };
    | right _ => total }.
Proof.
  - pose proof (run_end_step arr n i Hi Ha). lia.
  - lia.
Qed.

Definition _count_days_in_spells (flags : list bool) (min_duration : Z) : Z :=
  spells_loop flags (len flags) min_duration 0 0.

(** ** Exceptions *)

Inductive exn : Type :=
| ValueError   (* np.percentile: percentile outside [0, 100];
                  linregress: all x values identical *)
| KeyError.    (* a column missing from a frame *)

Inductive res (A : Type) : Type :=
| Ok (a : A)
| Raise (e : exn).
Arguments Ok {A} a.
Arguments Raise {A} e.

#[global] Instance res_ret : MRet res := λ A a, Ok a.
#[global] Instance res_bind : MBind res := λ A B f m,
  match m with
  | Ok a => f a
  | Raise e => Raise e
  end.

(** ** Data model *)

(** One row of the cleaned daily frame (the columns the script reads). *)
Module Daily.
Record t : Type := mk {
  year : Z;
  day_of_year : Z;
  temp_max : float;
  temp_min : float;
  temp_mean : float;
  precipitation : float;
}.
End Daily.

Abbreviation DataFrame := (list Daily.t).

(** The column names [build_calendar_day_percentile] is called with. *)
Inductive Column : Type := temp_max | temp_min | temp_mean | precipitation.

Definition col (column : Column) (row : Daily.t) : float :=
  match column with
  | temp_max => Daily.temp_max row
  | temp_min => Daily.temp_min row
  | temp_mean => Daily.temp_mean row
  | precipitation => Daily.precipitation row
  end.

(** [range(a, b)]. *)
Definition range (a b : Z) : list Z := seqZ a (b - a).

(** [s.get(key, np.nan)] on a Series indexed by day of year. *)
Definition Series_get (s : gmap Z float) (key : Z) : float :=
  default Float.nan (s !! key).

(** ** Constants *)

Definition BASELINE_START : Z := 1961.
Definition BASELINE_END : Z := 1990.
Definition WSDI_MIN_DURATION : Z := 6.
Definition SU25_THRESHOLD : Q := 25.
Definition SU30_THRESHOLD : Q := 30.
Definition TR20_THRESHOLD : Q := 20.
Definition DRY_DAY_THRESHOLD : Q := 1.
Definition WET_DAY_THRESHOLD : Q := 1.
Definition GDD_BASE : Q := 10.

(** ** [np.percentile] (default, linear method) *)

Fixpoint insert_sorted (x : Q) (l : list Q) : list Q :=
  match l with
  | [] => [x]
  | y :: rest => if Qle_bool x y then x :: l else y :: insert_sorted x rest
  end.

Definition sorted (l : list Q) : list Q := foldr insert_sorted [] l.

(** The value at virtual index [q/100 * (n-1)] of the sorted sample,
    interpolated linearly between its two neighbours (numpy answers NaN on an
    empty sample; the script never passes one). *)
Definition linear_percentile (a : list Q) (q : Q) : float :=
  let s := sorted a in
  match s with
  | [] => Float.nan
  | _ :: _ =>
      let n := len s in
      let pos := (q / 100 * inject_Z (n - 1))%Q in
      let lo := Qfloor pos in
      let hi := Z.min (lo + 1) (n - 1) in
      let frac := (pos - inject_Z lo)%Q in
      let a_lo := default 0%Q (s !! Z.to_nat lo) in
      let a_hi := default 0%Q (s !! Z.to_nat hi) in
      Some (Qred (a_lo + (a_hi - a_lo) * frac))
  end.

(** [np.percentile(a, q)]: a percentile outside [0, 100] raises. *)
Definition np_percentile (a : list Q) (q : Q) : res float :=
  if Float.Qltb q 0 || Float.Qltb 100 q then Raise ValueError
  else Ok (linear_percentile a q).

(** ** Percentile baselines *)

(** [df[(df["year"] >= baseline_start) & (df["year"] <= baseline_end)]]
    followed by [dropna(subset=[column])]. *)
Definition baseline_rows (df : DataFrame) (column : Column)
    (baseline_start baseline_end : Z) : DataFrame :=
  let baseline :=
    filter (λ r, baseline_start <= Daily.year r ∧ Daily.year r <= baseline_end) df in
  filter (λ r, Float.notna (col column r) = true) baseline.

(** [[(doy - window + k - 1) % 366 + 1 for k in range(2 * window + 1)]]. *)
Definition doys_in_window (doy window : Z) : list Z :=
  (λ k, (doy - window + k - 1) `mod` 366 + 1) <$> range 0 (2 * window + 1).

(** The body of the loop over [doy]: the value stored in [p_by_doy[doy]]. *)
Definition day_threshold (baseline : DataFrame) (column : Column)
    (percentile : Q) (doy : Z) : res float :=
  let window := 2 in
  let pool :=
    Float.dropna (col column <$>
      filter (λ r, Daily.day_of_year r ∈ doys_in_window doy window) baseline) in
  if len pool >=? 10 then np_percentile pool percentile
  else
    let pool_exact :=
      Float.dropna (col column <$>
        filter (λ r, Daily.day_of_year r = doy) baseline) in
    if len pool_exact >? 0 then np_percentile pool_exact percentile
    else Ok Float.nan.

Definition build_calendar_day_percentile (df : DataFrame) (column : Column)
    (baseline_start baseline_end : Z) (percentile : Q) : res (gmap Z float) :=
  let baseline := baseline_rows df column baseline_start baseline_end in
  foldl
    (λ acc doy,
       p_by_doy ← acc;
       v ← day_threshold baseline column percentile doy;
       mret (<[doy := v]> p_by_doy))
    (Ok ∅) (range 1 367).

(** The dictionary filled by a loop that stores [f doy] under [doy]. *)
Definition filled (f : Z -> float) (m : gmap Z float) (doys : list Z) : gmap Z float :=
  foldl (λ m doy, <[doy := f doy]> m) m doys.

(** ** Advanced metric functions *)

(** The row-wise flag [row[column] > p90.get(int(row["day_of_year"]), nan)]. *)
Definition exceeds (column : Column) (p90 : gmap Z float) (row : Daily.t) : bool :=
  Float.gt (col column row) (Series_get p90 (Daily.day_of_year row)).

Definition calculate_wsdi (year_df : DataFrame) (p90_tmax : gmap Z float)
    (min_duration : Z) : Z :=
  let flags := exceeds temp_max p90_tmax <$> year_df in
  _count_days_in_spells flags min_duration.

(** [Series.sum()] of a boolean column. *)
Definition count_true (flags : list bool) : Z :=
  len (filter (λ b, b = true) flags).

Definition calculate_tx90p (year_df : DataFrame) (p90_tmax : gmap Z float) : float :=
  let total := len year_df in
  if total =? 0 then Float.nan
  else
    let above := count_true (exceeds temp_max p90_tmax <$> year_df) in
    Float.round (Some (inject_Z above / inject_Z total * 100)%Q) 2.

Definition calculate_tn90p (year_df : DataFrame) (p90_tmin : gmap Z float) : float :=
  let total := len year_df in
  if total =? 0 then Float.nan
  else
    let above := count_true (exceeds temp_min p90_tmin <$> year_df) in
    Float.round (Some (inject_Z above / inject_Z total * 100)%Q) 2.

(** [precip_series < DRY_DAY_THRESHOLD] and [precip_series >= WET_DAY_THRESHOLD],
    element by element. *)
Definition dry_flag (p : float) : bool := Float.lt p (Some DRY_DAY_THRESHOLD).
Definition wet_flag (p : float) : bool := Float.ge p (Some WET_DAY_THRESHOLD).

Definition calculate_cdd (precip_series : list float) : Z :=
  _max_consecutive (dry_flag <$> precip_series).

Definition calculate_cwd (precip_series : list float) : Z :=
  _max_consecutive (wet_flag <$> precip_series).

(** ** Statistical tests *)

Module Trend.

(** The dictionary returned by [mann_kendall_trend]. *)
Record MannKendall : Type := {
  tau : float;
  p_value : float;
  trend_direction : string;
}.

(** The fields of scipy's [LinregressResult] that the script reads. *)
Record LinregressResult : Type := {
  slope : float;
  intercept : float;
  rvalue : float;
  pvalue : float;
}.

(** The dictionary returned by [linear_regression_trend]. *)
Record LinearRegression : Type := {
  lr_slope : float;
  lr_intercept : float;
  lr_r_squared : float;
  lr_p_value : float;
  lr_slope_per_decade : float;
}.

End Trend.

Section Scipy.

(** [scipy.stats.kendalltau(x, y)]: the pair [(tau, p_value)]; either can
    be NaN (a constant sample). *)
Variable kendalltau : list Z -> list Q -> float * float.

(** [scipy.stats.linregress(x, y)]; it raises [ValueError] when all [x]
    are identical. *)
Variable linregress : list Q -> list Q -> res Trend.LinregressResult.

Definition mann_kendall_trend (series : list float) : Trend.MannKendall :=
  let x := Float.dropna series in
  let n := len x in
  if n <? 3 then
    {| Trend.tau := Float.nan; Trend.p_value := Float.nan;
       Trend.trend_direction := "insufficient_data" |}
  else
    let time_idx := range 0 n in
    let '(tau, p_value) := kendalltau time_idx x in
    let direction :=
      if Float.gt tau (Some 0%Q) then "increasing"
      else if Float.lt tau (Some 0%Q) then "decreasing"
      else "no_trend" in
    {| Trend.tau := Float.round tau 4; Trend.p_value := Float.round p_value 4;
       Trend.trend_direction := direction |}.

(** [years] and [values] are two columns of one frame; a row of [rows] is
    [(years[i], values[i])]. *)
Definition linear_regression_trend (rows : list (Z * float))
    : res Trend.LinearRegression :=
  let kept := filter (λ r, Float.notna (snd r) = true) rows in
  let x := (λ r, inject_Z (fst r)) <$> kept in
  let y := Float.dropna (snd <$> kept) in
  if len x <? 3 then
    Ok {| Trend.lr_slope := Float.nan; Trend.lr_intercept := Float.nan;
          Trend.lr_r_squared := Float.nan; Trend.lr_p_value := Float.nan;
          Trend.lr_slope_per_decade := Float.nan |}
  else
    result ← linregress x y;
    mret {| Trend.lr_slope := Float.round (Trend.slope result) 4;
            Trend.lr_intercept := Float.round (Trend.intercept result) 4;
            Trend.lr_r_squared :=
              Float.round (Float.mul (Trend.rvalue result) (Trend.rvalue result)) 4;
            Trend.lr_p_value := Float.round (Trend.pvalue result) 4;
            Trend.lr_slope_per_decade :=
              Float.round (Float.mul (Trend.slope result) (Some 10%Q)) 4 |}.

End Scipy.

(** ** Main computation *)

(** The dictionary appended to [records] for one year. *)
Module Annual.
Record t : Type := mk {
  year : Z;
  su25 : Z;
  su30 : Z;
  tr20 : Z;
  dtr_mean : float;
  temp_max_mean : float;
  temp_min_mean : float;
  temp_mean_annual : float;
  precip_total : float;
  precip_days : Z;
  wsdi_days : Z;
  tx90p : float;
  tn90p : float;
  cdd : Z;
  cwd : Z;
  gdd : float;
  p95_days : Z;
  first_hot_day : option Z;
  last_hot_day : option Z;
  hot_season_length : Z;
}.
End Annual.

(** [Series.min()] and [Series.max()] of a non-empty integer column
    [x :: rest]. *)
Definition Zlist_min (x : Z) (rest : list Z) : Z := foldr Z.min x rest.
Definition Zlist_max (x : Z) (rest : list Z) : Z := foldr Z.max x rest.

(** The seasonal block of the loop body: [(first_hot_day, last_hot_day,
    hot_season_length)]. *)
Definition hot_season (ydf : DataFrame) : option Z * option Z * Z :=
  let hot_days :=
    filter (λ r, Float.ge (Daily.temp_max r) (Some SU30_THRESHOLD) = true) ydf in
  match Daily.day_of_year <$> hot_days with
  | d :: rest =>
      let first_hot_day := Zlist_min d rest in
      let last_hot_day := Zlist_max d rest in
      (Some first_hot_day, Some last_hot_day, last_hot_day - first_hot_day)
  | [] => (None, None, 0)
  end.

(** The body of the loop over [years]. *)
Definition annual_record (year : Z) (ydf : DataFrame)
    (p90_tmax p90_tmin : gmap Z float) (p95_tmax_scalar : float) : Annual.t :=
  let ge_count (column : Column) (threshold : Q) :=
    count_true ((λ r, Float.ge (col column r) (Some threshold)) <$> ydf) in
  let daily_gdd :=
    (λ r, Float.maximum (Some 0%Q)
            (Float.sub
               (Float.div (Float.add (Daily.temp_max r) (Daily.temp_min r)) (Some 2%Q))
               (Some GDD_BASE))) <$> ydf in
  let '(first_hot_day, last_hot_day, hot_season_length) := hot_season ydf in
  {| Annual.year := year;
     Annual.su25 := ge_count temp_max SU25_THRESHOLD;
     Annual.su30 := ge_count temp_max SU30_THRESHOLD;
     Annual.tr20 := ge_count temp_min TR20_THRESHOLD;
     Annual.dtr_mean :=
       Float.round
         (Float.mean ((λ r, Float.sub (Daily.temp_max r) (Daily.temp_min r)) <$> ydf)) 2;
     Annual.temp_max_mean := Float.round (Float.mean (Daily.temp_max <$> ydf)) 2;
     Annual.temp_min_mean := Float.round (Float.mean (Daily.temp_min <$> ydf)) 2;
     Annual.temp_mean_annual := Float.round (Float.mean (Daily.temp_mean <$> ydf)) 2;
     Annual.precip_total := Float.round (Float.sum (Daily.precipitation <$> ydf)) 1;
     Annual.precip_days := ge_count precipitation WET_DAY_THRESHOLD;
     Annual.wsdi_days := calculate_wsdi ydf p90_tmax WSDI_MIN_DURATION;
     Annual.tx90p := calculate_tx90p ydf p90_tmax;
     Annual.tn90p := calculate_tn90p ydf p90_tmin;
     Annual.cdd := calculate_cdd (Daily.precipitation <$> ydf);
     Annual.cwd := calculate_cwd (Daily.precipitation <$> ydf);
     Annual.gdd := Float.round (Float.sum daily_gdd) 1;
     Annual.p95_days :=
       count_true ((λ r, Float.gt (Daily.temp_max r) p95_tmax_scalar) <$> ydf);
     Annual.first_hot_day := first_hot_day;
     Annual.last_hot_day := last_hot_day;
     Annual.hot_season_length := hot_season_length |}.

(** [sorted(s.unique())] of an integer column. *)
Definition sorted_unique (s : list Z) : list Z := merge_sort Z.le (remove_dups s).

(** Step 3 of [main]: one record per year present in the frame. *)
Definition annual_records (df : DataFrame) (p90_tmax p90_tmin : gmap Z float)
    (p95_tmax_scalar : float) : list Annual.t :=
  (λ year,
     let ydf := filter (λ r, Daily.year r = year) df in
     annual_record year ydf p90_tmax p90_tmin p95_tmax_scalar)
  <$> sorted_unique (Daily.year <$> df).

(** A row of the frame [annual] once the column [anomaly] is set. *)
Record AnnualRow : Type := {
  metrics : Annual.t;
  anomaly : float;
}.


(** The names listed in [numeric_cols]. *)
Module Col.
Inductive t : Type :=
| su25 | su30 | tr20 | dtr_mean
| temp_max_mean | temp_min_mean | temp_mean_annual
| precip_total | precip_days
| wsdi_days | tx90p | tn90p
| cdd | cwd | gdd | p95_days
| hot_season_length | anomaly.
End Col.

(** [annual[c]] for a numeric column, as doubles. *)
Definition numeric_value (c : Col.t) (row : AnnualRow) : float :=
  let m := metrics row in
  match c with
  | Col.su25 => Float.of_Z (Annual.su25 m)
  | Col.su30 => Float.of_Z (Annual.su30 m)
  | Col.tr20 => Float.of_Z (Annual.tr20 m)
  | Col.dtr_mean => Annual.dtr_mean m
  | Col.temp_max_mean => Annual.temp_max_mean m
  | Col.temp_min_mean => Annual.temp_min_mean m
  | Col.temp_mean_annual => Annual.temp_mean_annual m
  | Col.precip_total => Annual.precip_total m
  | Col.precip_days => Float.of_Z (Annual.precip_days m)
  | Col.wsdi_days => Float.of_Z (Annual.wsdi_days m)
  | Col.tx90p => Annual.tx90p m
  | Col.tn90p => Annual.tn90p m
  | Col.cdd => Float.of_Z (Annual.cdd m)
  | Col.cwd => Float.of_Z (Annual.cwd m)
  | Col.gdd => Annual.gdd m
  | Col.p95_days => Float.of_Z (Annual.p95_days m)
  | Col.hot_season_length => Float.of_Z (Annual.hot_season_length m)
  | Col.anomaly => anomaly row
  end.

(** [annual["year"] // 10 * 10]. *)
Definition decade_of (row : AnnualRow) : Z := Annual.year (metrics row) / 10 * 10.

(** A row of the frame [decadal]. *)
Record DecadalRow : Type := {
  decade : Z;
  cell : Col.t -> float;
}.

(** Step 6 of [main]:
    [annual.groupby("decade")[numeric_cols].mean().round(2).reset_index()]. *)
Definition decadal_table (annual : list AnnualRow) : list DecadalRow :=
  (λ d,
     let group := filter (λ r, decade_of r = d) annual in
     {| decade := d;
        cell := λ c, Float.round (Float.mean (numeric_value c <$> group)) 2 |})
  <$> sorted_unique (decade_of <$> annual).

(** ** Run encoder, as the specification words it *)

Module RunEncoder.

(** Lengths of the maximal runs of [true], left to right; [cur] is the
    length of the run that is open when the scan reaches [flags]. *)
Fixpoint true_runs_from (cur : Z) (flags : list bool) : list Z :=
  match flags with
  | [] => if cur =? 0 then [] else [cur]
  | true :: rest => true_runs_from (cur + 1) rest
  | false :: rest => (if cur =? 0 then [] else [cur]) ++ true_runs_from 0 rest
  end.

Definition true_runs (flags : list bool) : list Z := true_runs_from 0 flags.

Definition Zsum (l : list Z) : Z := foldr Z.add 0 l.

(** Sum of the lengths of the maximal runs of length at least [min_length]. *)
Definition days_in_qualifying_runs (flags : list bool) (min_length : Z) : Z :=
  Zsum (filter (λ r, min_length <= r) (true_runs flags)).

Definition longest_run (flags : list bool) : Z :=
  foldr Z.max 0 (true_runs flags).

Definition count_of_true (flags : list bool) : Z :=
  len (filter (λ b, b = true) flags).

(** Number of [true] at the head of the sequence. *)
Fixpoint leading (flags : list bool) : nat :=
  match flags with
  | true :: rest => S (leading rest)
  | _ => 0%nat
  end.

(** Number of [false] at the head of the sequence. *)
Fixpoint gap (flags : list bool) : nat :=
  match flags with
  | false :: rest => S (gap rest)
  | _ => 0%nat
  end.

(** [maximal_runs flags runs]: the sequence reads as gaps of [false]
    separating runs of [true] of the lengths [runs], in order.  A run of
    [k >= 1] flags comes after a gap (or opens the sequence) and is followed
    by [false] (or closes the sequence), so it cannot be extended. *)
Inductive maximal_runs : list bool -> list Z -> Prop :=
| runs_none (a : nat) :
    maximal_runs (replicate a false) []
| runs_next (a k : nat) (rest : list bool) (runs : list Z) :
    (0 < k)%nat ->
    head rest ≠ Some true ->
    maximal_runs rest runs ->
    maximal_runs (replicate a false ++ replicate k true ++ rest) (Z.of_nat k :: runs).

End RunEncoder.

(** ** Index definitions, as the specification words them *)

#[global] Instance Qlt_decision (x y : Q) : Decision (x < y)%Q.
Proof. destruct (Qlt_le_dec x y) as [H | H]; [left; exact H | right; apply Qle_not_lt, H]. Defined.

#[global] Instance Qle_decision (x y : Q) : Decision (x <= y)%Q.
Proof. destruct (Qlt_le_dec y x) as [H | H]; [right; apply Qlt_not_le, H | left; exact H]. Defined.

Module Spec.

(** The day's value strictly exceeds the day's calendar threshold; a
    missing value or an undefined (or absent) threshold never does. *)
Definition strictly_exceeds (column : Column) (thresholds : gmap Z float)
    (day : Daily.t) : bool :=
  match col column day, thresholds !! Daily.day_of_year day with
  | Some v, Some (Some t) => bool_decide (t < v)%Q
  | _, _ => false
  end.



(** Distance between two days of year on the 366-day circle. *)
Definition circular_distance (a d : Z) : Z :=
  Z.min (Z.abs (a - d)) (366 - Z.abs (a - d)).

(** [a] lies in the window of two days on either side of [d], wrapping
    across the 366/1 boundary. *)
Definition in_window (d a : Z) : Prop :=
  1 <= a <= 366 ∧ circular_distance a d <= 2.

#[global] Instance in_window_dec d a : Decision (in_window d a).
Proof. unfold in_window. apply _. Defined.

(** The non-missing values of [column] observed in the baseline years on a
    day of year satisfying [P], in the order of the frame. *)
Definition pool (df : DataFrame) (column : Column) (baseline_start baseline_end : Z)
    (P : Z -> Prop) `{!∀ a, Decision (P a)} : list Q :=
  omap (λ day,
          if decide ((baseline_start <= Daily.year day ∧ Daily.year day <= baseline_end)
                     ∧ P (Daily.day_of_year day))
          then col column day else None) df.

(** The threshold of calendar day [d]. *)
Definition calendar_threshold (df : DataFrame) (column : Column)
    (baseline_start baseline_end : Z) (percentile : Q) (d : Z) : float :=
  let windowed := pool df column baseline_start baseline_end (in_window d) in
  let exact := pool df column baseline_start baseline_end (λ a, a = d) in
  if decide (10 <= len windowed) then linear_percentile windowed percentile
  else if decide (0 < len exact) then linear_percentile exact percentile
  else Float.nan.

(** Every day of the series is classified as exactly one of dry and wet. *)
Definition dry_wet_partition (precip_series : list float) : Prop :=
  ∀ (i : nat) (p : float),
    precip_series !! i = Some p -> xorb (dry_flag p) (wet_flag p) = true.

(** The day's maximum temperature reaches the hot threshold of 30 degrees. *)
Definition hot_day (day : Daily.t) : Prop :=
  match Daily.temp_max day with
  | Some v => (30 <= v)%Q
  | None => False
  end.

#[global] Instance hot_day_dec day : Decision (hot_day day).
Proof. unfold hot_day. destruct (Daily.temp_max day); apply _. Defined.




(** The rows of a frame whose year lies in the baseline range. *)
Definition rows_in_range (baseline_start baseline_end : Z) (df : DataFrame) : DataFrame :=
  filter (λ r, baseline_start <= Daily.year r ∧ Daily.year r <= baseline_end) df.

(** A percentile that [np.percentile] accepts. *)
Definition valid_percentile (q : Q) : Prop := (0 <= q)%Q ∧ (q <= 100)%Q.

(** The coefficient [tau] that [kendalltau] returns for the non-missing
    points of a series. *)
Definition kendall_tau (kendalltau : list Z -> list Q -> float * float)
    (series : list float) : float :=
  let x := Float.dropna series in
  fst (kendalltau (range 0 (len x)) x).

(** The insufficient-data results of the two trend tests. *)
Definition insufficient_mann_kendall : Trend.MannKendall :=
  {| Trend.tau := Float.nan; Trend.p_value := Float.nan;
     Trend.trend_direction := "insufficient_data" |}.

Definition undefined_regression : Trend.LinearRegression :=
  {| Trend.lr_slope := Float.nan; Trend.lr_intercept := Float.nan;
     Trend.lr_r_squared := Float.nan; Trend.lr_p_value := Float.nan;
     Trend.lr_slope_per_decade := Float.nan |}.

End Spec.

(** ** Sample data *)

(** A day of the given year with the given maximum temperature. *)
Definition obs (year day : Z) (tmax : Q) : Daily.t :=
  Daily.mk year day (Some tmax) (Some 15%Q) (Some 20%Q) (Some 0%Q).

(** Three baseline years at 25, 26 and 27 degrees on day 10, with a year 2000
    at 24 degrees, or with the years 1950 and 2000 at 50 and 99 degrees. *)
Definition mild_frame : DataFrame :=
  [obs 1961 10 25; obs 1975 10 26; obs 2000 10 24; obs 1990 10 27].

Definition inflated_frame : DataFrame :=
  [obs 1950 10 50; obs 1961 10 25; obs 1975 10 26; obs 1990 10 27; obs 2000 10 99].

(** A threshold of 29 degrees on every day of the year. *)
Definition flat_p90 : gmap Z float :=
  list_to_map ((λ d, (d, Some 29%Q)) <$> range 1 367).

(** A year of twelve days whose third to [(2 + k)]-th days are at 31 degrees
    and the others at 20. *)
Definition one_spell_year (k : Z) : DataFrame :=
  (λ d, Daily.mk 2001 d
          (Some (if (3 <=? d) && (d <? 3 + k) then 31%Q else 20%Q))
          (Some 15%Q) (Some 18%Q) (Some 0%Q))
  <$> range 1 13.


Definition missing_year : DataFrame :=
  [ Daily.mk 2001 1 Float.nan (Some 15%Q) (Some 18%Q) (Some 0%Q) ].

(** Three days: no rain, no reading, 1.0 mm. *)
Definition gappy_precip : list float := [Some 0%Q; Float.nan; Some 1%Q].

(** Stand-ins for the two scipy functions: a coefficient of 1/3, and a
    regression that always raises. *)
Definition sample_kendalltau (time_idx : list Z) (x : list Q) : float * float :=
  (Some (1 # 3)%Q, Some (1 # 2)%Q).

Definition sample_linregress (x y : list Q) : res Trend.LinregressResult :=
  Raise ValueError.

(** A year whose only day at 30 degrees or more is day 40; a year with none. *)
Definition one_hot_day_year : DataFrame :=
  [obs 2001 39 28; obs 2001 40 31; obs 2001 41 29].

Definition no_hot_day_year : DataFrame :=
  [obs 2001 39 28; obs 2001 40 29].




(** ** The reference implementations of [test_cwd_cdd_edge.py] *)

Module TestCwdCddEdge.

(** The loop over the 0/1 column: [(max_streak, streak)]. *)
Definition streak_step (st : Z * Z) (d : Z) : Z * Z :=
  let '(max_streak, streak) := st in
  if decide (d ≠ 0) then (Z.max max_streak (streak + 1), streak + 1)
  else (max_streak, 0).

(** [s.astype(int)] on a boolean column. *)
Definition astype_int (flags : list bool) : list Z :=
  (λ b : bool, if b then 1 else 0) <$> flags.

Definition calculate_cdd (precip : list float) : Z :=
  let dry := astype_int ((λ p, Float.lt p (Some 1%Q)) <$> precip) in
  fst (foldl streak_step (0, 0) dry).

Definition calculate_cwd (precip : list float) : Z :=
  let wet := astype_int ((λ p, Float.ge p (Some 1%Q)) <$> precip) in
  fst (foldl streak_step (0, 0) wet).

End TestCwdCddEdge.

(** A row that [build_calendar_day_percentile] draws on: a year of the
    baseline, a value in [column], a day of year of the calendar. *)
Definition baseline_observation (column : Column) (bs be : Z) (r : Daily.t) : Prop :=
  (bs <= Daily.year r ∧ Daily.year r <= be)
  ∧ is_Some (col column r)
  ∧ 1 <= Daily.day_of_year r <= 366.

(** ** [process_climate_data.py] *)

Module ProcessClimateData.

(** The variables of the loop of [_nan_runs]. *)
Record nan_state : Type := {
  runs : list (Z * Z);
  in_run : bool;
  run_start : Z;
}.

(** [pd.isna(val)]. *)
Definition isna (val : float) : bool := negb (Float.notna val).

(** [enumerate(series)], counting from [start]. *)
Definition enumerate_from {A} (start : Z) (series : list A) : list (Z * A) :=
  zip (seqZ start (len series)) series.

(** One iteration of [for i, val in enumerate(series)]. *)
Definition nan_runs_step (st : nan_state) (item : Z * float) : nan_state :=
  let '(i, val) := item in
  if isna val then
    if negb (in_run st) then {| runs := runs st; in_run := true; run_start := i |}
    else st
  else
    if in_run st then
      {| runs := runs st ++ [(run_start st, i - 1)]; in_run := false;
         run_start := run_start st |}
    else st.

Definition _nan_runs (series : list float) : list (Z * Z) :=
  let st :=
    foldl nan_runs_step {| runs := []; in_run := false; run_start := 0 |}
      (enumerate_from 0 series) in
  if in_run st then runs st ++ [(run_start st, len series - 1)] else runs st.

(** The run in progress in a state of the loop. *)
Definition open_run (st : nan_state) : option Z :=
  if in_run st then Some (run_start st) else None.

(** [located_runs start flags runs]: [flags], whose first element has
    index [start], reads as gaps of [false] separating maximal runs of
    [true]; [runs] lists the first and last index of each run, in order. *)
Inductive located_runs : Z -> list bool -> list (Z * Z) -> Prop :=
| located_none (start : Z) (a : nat) :
    located_runs start (replicate a false) []
| located_next (start : Z) (a k : nat) (rest : list bool) (runs : list (Z * Z)) :
    (0 < k)%nat ->
    head rest ≠ Some true ->
    located_runs (start + Z.of_nat a + Z.of_nat k) rest runs ->
    located_runs start (replicate a false ++ replicate k true ++ rest)
      ((start + Z.of_nat a, start + Z.of_nat a + Z.of_nat k - 1) :: runs).

(** The scan of [_nan_runs] on the flags, without the accumulator: [i] is the
    index of the head of [flags], [open] the start of the run in progress. *)
Fixpoint scan (i : Z) (open : option Z) (flags : list bool) : list (Z * Z) :=
  match flags with
  | [] => match open with Some s => [(s, i - 1)] | None => [] end
  | true :: rest => scan (i + 1) (Some (default i open)) rest
  | false :: rest =>
      match open with
      | Some s => (s, i - 1) :: scan (i + 1) None rest
      | None => scan (i + 1) None rest
      end
  end.

(** The columns steps 7 to 9 of [main] read or write. *)
Module DayRow.
Record t : Type := mk {
  temp_max : float;
  temp_min : float;
  temp_mean : float;
  precipitation : float;
}.
End DayRow.





End ProcessClimateData.

(** ** The retry loops of [fetch_year] and [fetch_nasa_power_year] *)

(** What the two loops see of the library [requests] and of the clock. *)
Module Requests.
Section Json.
Context {json : Type}.

(** What one call of [requests.get] comes to: it raises a
    [RequestException], or returns a response with its [ok] flag and its
    body, [None] when the body is not JSON. *)
Inductive reply : Type :=
| Failed
| Response (ok : bool) (body : option json).

(** The exceptions the [except] clauses of the loops catch. *)
Inductive error : Type :=
| RequestException   (* raised by [requests.get] *)
| HTTPError          (* [not response.ok], [raise_for_status()] *)
| JSONDecodeError.   (* the [ValueError] of [response.json()] *)

(** The requests sent and the seconds slept so far. *)
Record world : Type := {
  requests_sent : nat;
  slept : list Z;
}.

Definition time_sleep (seconds : Z) (w : world) : world :=
  {| requests_sent := requests_sent w; slept := slept w ++ [seconds] |}.

(** [requests.get]: [server n] is the reply to the n-th request sent. *)
Definition get (server : nat -> reply) (w : world) : reply * world :=
  (server (requests_sent w),
   {| requests_sent := S (requests_sent w); slept := slept w |}).

(** The status check followed by [.json()], on the reply of [get]. *)
Definition json_of (r : reply) : json + error :=
  match r with
  | Failed => inr RequestException
  | Response ok body =>
      if negb ok then inr HTTPError
      else match body with
           | Some data => inl data
           | None => inr JSONDecodeError
           end
  end.


End Json.
Global Arguments reply : clear implicits.
End Requests.

Module FetchClimateData.

Definition MAX_RETRIES : Z := 3.
Definition BACKOFF_BASE : Z := 1.

Section Server.
Context {json : Type}.
Variable server : nat -> Requests.reply json.

Inductive outcome : Type :=
| Returned (data : json)
| RuntimeError.

(** [for attempt in attempts: ...] followed by the final [raise]. *)
Fixpoint attempts_loop (attempts : list Z) (w : Requests.world)
    : outcome * Requests.world :=
  match attempts with
  | [] => (RuntimeError, w)
  | attempt :: rest =>
      let '(r, w) := Requests.get server w in
      match Requests.json_of r with
      | inl data => (Returned data, w)
      | inr _ =>
          let wait := BACKOFF_BASE * 2 ^ (attempt - 1) in
          let w := if attempt <? MAX_RETRIES then Requests.time_sleep wait w else w in
          attempts_loop rest w
      end
  end.


End Server.
Global Arguments outcome : clear implicits.

End FetchClimateData.

(** ** [validate_cross_source.py] *)

Module ValidateCrossSource.

Section Server.
Context {json : Type}.
Variable server : nat -> Requests.reply json.

(** How the loop of [fetch_nasa_power_year] is left: [break] with [data]
    bound, the exception raised again, or the end of the range with [data]
    unbound. *)
Inductive outcome : Type :=
| Bound (data : json)
| Raised (exc : Requests.error)
| Unbound.

Fixpoint attempts_loop (attempts : list Z) (w : Requests.world)
    : outcome * Requests.world :=
  match attempts with
  | [] => (Unbound, w)
  | attempt :: rest =>
      let '(r, w) := Requests.get server w in
      match Requests.json_of r with
      | inl data => (Bound data, w)
      | inr exc =>
          let wait := 2 ^ (attempt - 1) in
          if attempt =? 3 then (Raised exc, w)
          else attempts_loop rest (Requests.time_sleep wait w)
      end
  end.


End Server.
Global Arguments outcome : clear implicits.

(** [Series.abs()] on one value. *)
Definition abs (a : float) : float :=
  match a with
  | Some x => Some (Qabs x)
  | None => None
  end.

(** [a - b] for two columns of one frame, which share their index. *)
Definition series_sub (a b : list float) : list float := zip_with Float.sub a b.

Definition mae (a b : list float) : float := Float.mean (abs <$> series_sub a b).

Definition bias (a b : list float) : float := Float.mean (series_sub a b).

End ValidateCrossSource.

(** ** [generate_web_data.py] *)

Module GenerateWebData.

#[local] Set Warnings "-register-all".










End GenerateWebData.

(** * Properties *)

(** ** The run encoder *)

Section RunEncoderFacts.
Import RunEncoder.

Lemma leading_le flags : (leading flags <= length flags)%nat.
Proof. induction flags as [| [] rest IH]; simpl; lia. Qed.

Lemma leading_split flags :
  flags = replicate (leading flags) true ++ drop (leading flags) flags.
Proof. induction flags as [| [] rest IH]; simpl; [done | by f_equal | done]. Qed.

Lemma leading_drop flags : leading (drop (leading flags) flags) = 0%nat.
Proof. induction flags as [| [] rest IH]; simpl; done. Qed.

Lemma true_runs_from_leading cur flags :
  true_runs_from cur flags
  = true_runs_from (cur + Z.of_nat (leading flags)) (drop (leading flags) flags).
Proof.
  revert cur. induction flags as [| [] rest IH]; intros cur; simpl.
  - by rewrite Z.add_0_r.
  - rewrite IH. f_equal. lia.
  - by rewrite Z.add_0_r.
Qed.

Lemma true_runs_from_closed cur flags :
  0 < cur -> leading flags = 0%nat ->
  true_runs_from cur flags = cur :: true_runs flags.
Proof.
  intros Hcur Hlead. assert ((cur =? 0) = false) as Hz by lia.
  destruct flags as [| [] rest]; simpl in *; try done; by rewrite Hz.
Qed.

(** A run of [k >= 1] flags at the head is the first maximal run. *)
Lemma true_runs_head flags :
  (0 < leading flags)%nat ->
  true_runs flags
  = Z.of_nat (leading flags) :: true_runs (drop (leading flags) flags).
Proof.
  intros Hk. unfold true_runs at 1. rewrite true_runs_from_leading.
  rewrite true_runs_from_closed; [done | lia | apply leading_drop].
Qed.

Lemma true_runs_false rest : true_runs (false :: rest) = true_runs rest.
Proof. reflexivity. Qed.

Lemma Zsum_app l1 l2 : Zsum (l1 ++ l2) = Zsum l1 + Zsum l2.
Proof. induction l1 as [| x l1 IH]; simpl; [done | rewrite IH; lia]. Qed.

Lemma true_runs_from_sum cur flags :
  0 <= cur -> Zsum (true_runs_from cur flags) = cur + count_of_true flags.
Proof.
  unfold count_of_true, len. revert cur.
  induction flags as [| [] rest IH]; intros cur Hcur; cbn [true_runs_from].
  - destruct (cur =? 0) eqn:E; simpl; lia.
  - rewrite IH by lia. rewrite filter_cons_True by done. simpl length. lia.
  - rewrite Zsum_app, IH by lia. rewrite filter_cons_False by done.
    destruct (cur =? 0) eqn:E; simpl; lia.
Qed.

Lemma true_runs_from_pos cur flags :
  0 <= cur -> Forall (λ r, 0 < r) (true_runs_from cur flags).
Proof.
  revert cur. induction flags as [| [] rest IH]; intros cur Hcur; simpl.
  - destruct (cur =? 0) eqn:E; [constructor |]. repeat constructor. lia.
  - apply IH. lia.
  - apply Forall_app. split; [| by apply IH].
    destruct (cur =? 0) eqn:E; [constructor |]. repeat constructor. lia.
Qed.

Lemma len_app {A} (l1 l2 : list A) : len (l1 ++ l2) = len l1 + len l2.
Proof. unfold len. rewrite length_app. lia. Qed.

Lemma arr_at_middle pre x rest : arr_at (pre ++ x :: rest) (len pre) = x.
Proof.
  unfold arr_at, len. destruct (Z.ltb_spec (Z.of_nat (length pre)) 0); [lia |].
  rewrite Nat2Z.id, list_lookup_middle; done.
Qed.

(** The inner loop stops right after the run that starts at [len pre]. *)
Lemma run_end_leading suf pre :
  run_end (pre ++ suf) (len (pre ++ suf)) (len pre)
  = len pre + Z.of_nat (leading suf).
Proof.
  revert pre. induction suf as [| b rest IH]; intros pre.
  - rewrite run_end_equation_1. rewrite app_nil_r.
    destruct (decide _) as [Hc | Hn]; simpl; lia.
  - rewrite run_end_equation_1.
    destruct (decide _) as [Hc | Hn]; simpl.
    + destruct Hc as [Hlt Ha]. rewrite arr_at_middle in Ha. subst b.
      pose proof (IH (pre ++ [true])) as IH'.
      replace ((pre ++ [true]) ++ rest) with (pre ++ true :: rest) in IH'
        by (by rewrite <- app_assoc).
      replace (len (pre ++ [true])) with (len pre + 1) in IH'
        by (by rewrite len_app).
      rewrite IH'. simpl leading. lia.
    + destruct b; [| simpl; lia].
      exfalso. apply Hn. split; [| apply arr_at_middle].
      rewrite len_app. unfold len. simpl. lia.
Qed.

Lemma days_in_qualifying_runs_nil m : days_in_qualifying_runs [] m = 0.
Proof. reflexivity. Qed.

Lemma days_in_qualifying_runs_false rest m :
  days_in_qualifying_runs (false :: rest) m = days_in_qualifying_runs rest m.
Proof. reflexivity. Qed.

Lemma days_in_qualifying_runs_head flags m :
  (0 < leading flags)%nat ->
  days_in_qualifying_runs flags m
  = (if Z.of_nat (leading flags) >=? m then Z.of_nat (leading flags) else 0)
    + days_in_qualifying_runs (drop (leading flags) flags) m.
Proof.
  intros Hk. unfold days_in_qualifying_runs. rewrite (true_runs_head flags Hk).
  destruct (Z.geb_spec (Z.of_nat (leading flags)) m).
  - rewrite filter_cons_True by lia. reflexivity.
  - rewrite filter_cons_False by lia. reflexivity.
Qed.

(** The outer loop, started at the boundary between [pre] and [suf], adds
    to [total] the qualifying days of [suf]. *)
Lemma spells_loop_spec m suf : forall pre total,
  spells_loop (pre ++ suf) (len (pre ++ suf)) m (len pre) total
  = total + days_in_qualifying_runs suf m.
Proof.
  induction suf as [suf IH] using (induction_ltof1 _ (@length bool)).
  unfold ltof in IH. intros pre total.
  rewrite spells_loop_equation_1.
  destruct suf as [| b rest].
  - rewrite app_nil_r. destruct (decide _) as [Hlt | Hn]; simpl; [lia |].
    rewrite days_in_qualifying_runs_nil. lia.
  - destruct (decide _) as [Hlt | Hn]; simpl.
    2: { exfalso. apply Hn. rewrite len_app. unfold len. simpl. lia. }
    destruct (decide _) as [Ha | Ha]; simpl.
    + rewrite arr_at_middle in Ha. subst b.
      rewrite run_end_leading.
      set (suf := true :: rest). set (k := leading suf).
      assert (0 < k)%nat as Hk by (unfold k; simpl; lia).
      rewrite (days_in_qualifying_runs_head suf m Hk). fold k.
      pose proof (leading_le suf) as Hle. fold k in Hle.
      specialize (IH (drop k suf)).
      rewrite length_drop in IH.
      assert (length suf - k < length suf)%nat as Hlt' by (simpl in *; lia).
      specialize (IH Hlt' (pre ++ replicate k true)).
      pose proof (leading_split suf) as Hsplit. fold k in Hsplit.
      rewrite <- app_assoc, <- Hsplit in IH.
      replace (len (pre ++ replicate k true)) with (len pre + Z.of_nat k) in IH
        by (rewrite len_app; unfold len; by rewrite length_replicate).
      rewrite IH.
      replace (len pre + Z.of_nat k - len pre) with (Z.of_nat k) by lia.
      destruct (Z.of_nat k >=? m); lia.
    + rewrite arr_at_middle in Ha. destruct b; [done |].
      specialize (IH rest ltac:(simpl; lia) (pre ++ [false]) total).
      replace ((pre ++ [false]) ++ rest) with (pre ++ false :: rest) in IH
        by (by rewrite <- app_assoc).
      replace (len (pre ++ [false])) with (len pre + 1) in IH
        by (by rewrite len_app).
      rewrite IH. rewrite days_in_qualifying_runs_false. reflexivity.
Qed.

(** [_count_days_in_spells] computes the specified run statistic. *)
Lemma count_days_in_spells_spec flags m :
  _count_days_in_spells flags m = days_in_qualifying_runs flags m.
Proof.
  unfold _count_days_in_spells.
  pose proof (spells_loop_spec m flags [] 0) as H.
  change (len []) with 0 in H. simpl app in H.
  rewrite H. lia.
Qed.

Lemma true_runs_from_first cur flags :
  0 <= cur -> cur <= foldr Z.max 0 (true_runs_from cur flags).
Proof.
  revert cur. induction flags as [| [] rest IH]; intros cur Hcur; cbn [true_runs_from].
  - destruct (Z.eqb_spec cur 0); simpl; lia.
  - specialize (IH (cur + 1)). lia.
  - destruct (Z.eqb_spec cur 0); simpl; [| lia].
    pose proof (IH 0). lia.
Qed.

Lemma max_consecutive_scan flags : forall max_run current,
  0 <= current <= max_run ->
  fst (foldl max_consecutive_step (max_run, current) flags)
  = Z.max max_run (foldr Z.max 0 (true_runs_from current flags)).
Proof.
  induction flags as [| [] rest IH]; intros max_run current Hst;
    cbn [foldl max_consecutive_step true_runs_from].
  - destruct (Z.eqb_spec current 0); simpl; lia.
  - rewrite IH by lia.
    pose proof (true_runs_from_first (current + 1) rest). lia.
  - rewrite IH by lia.
    destruct (Z.eqb_spec current 0); simpl; lia.
Qed.

Lemma true_runs_no_flag flags : existsb id flags = false -> true_runs flags = [].
Proof.
  unfold true_runs. induction flags as [| [] rest IH]; simpl; [done | done |].
  intros H. by apply IH.
Qed.

(** [_max_consecutive] computes the length of the longest maximal run. *)
Lemma max_consecutive_spec flags : _max_consecutive flags = longest_run flags.
Proof.
  unfold _max_consecutive, longest_run.
  destruct (existsb id flags) eqn:Hany; simpl.
  - rewrite max_consecutive_scan by lia. fold (true_runs flags).
    pose proof (true_runs_from_first 0 flags). unfold true_runs. lia.
  - by rewrite true_runs_no_flag.
Qed.

End RunEncoderFacts.

Section WarmSpells.
Import RunEncoder.

Lemma true_runs_all_false a : true_runs (replicate a false) = [].
Proof. induction a as [| a IH]; [done |]. simpl. by rewrite true_runs_false. Qed.

Lemma leading_block k rest :
  leading rest = 0%nat -> leading (replicate k true ++ rest) = k.
Proof. intros H. induction k as [| k IH]; simpl; [done | by rewrite IH]. Qed.

Lemma drop_block {A} k (x : A) rest : drop k (replicate k x ++ rest) = rest.
Proof. induction k as [| k IH]; simpl; done. Qed.

Lemma true_runs_skip a flags : true_runs (replicate a false ++ flags) = true_runs flags.
Proof. induction a as [| a IH]; [done |]. simpl. by rewrite true_runs_false. Qed.

(** A sequence made of one block of [k >= 1] flags between two gaps has
    that block as its only maximal run. *)
Lemma true_runs_single a k b :
  (0 < k)%nat ->
  true_runs (replicate a false ++ replicate k true ++ replicate b false)
  = [Z.of_nat k].
Proof.
  intros Hk. rewrite true_runs_skip.
  assert (leading (replicate b false) = 0%nat) as Hb by (by destruct b).
  pose proof (leading_block k _ Hb) as Hlead.
  rewrite true_runs_head by (rewrite Hlead; lia).
  rewrite Hlead, drop_block, true_runs_all_false. reflexivity.
Qed.

Lemma days_single_run a k b m :
  days_in_qualifying_runs
    (replicate a false ++ replicate k true ++ replicate b false) m
  = if decide (m <= Z.of_nat k ∧ (0 < k)%nat) then Z.of_nat k else 0.
Proof.
  unfold days_in_qualifying_runs. destruct k as [| k].
  - simpl replicate. simpl app. rewrite <- replicate_add, true_runs_all_false.
    by case_decide.
  - rewrite true_runs_single by lia. case_decide.
    + rewrite filter_cons_True by lia. simpl. lia.
    + rewrite filter_cons_False by lia. reflexivity.
Qed.

Lemma leading_head flags : leading flags = 0%nat ↔ head flags ≠ Some true.
Proof. destruct flags as [| [] rest]; simpl; split; done. Qed.

Lemma gap_le flags : (gap flags <= length flags)%nat.
Proof. induction flags as [| [] rest IH]; simpl; lia. Qed.

Lemma gap_split flags :
  flags = replicate (gap flags) false ++ drop (gap flags) flags.
Proof. induction flags as [| [] rest IH]; simpl; [done | done | by f_equal]. Qed.

Lemma gap_drop flags : head (drop (gap flags) flags) ≠ Some false.
Proof. induction flags as [| [] rest IH]; simpl; done. Qed.

(** The scan [true_runs] lists the maximal runs of the sequence. *)
Lemma true_runs_maximal flags : maximal_runs flags (true_runs flags).
Proof.
  induction flags as [flags IH] using (induction_ltof1 _ (@length bool)).
  unfold ltof in IH.
  pose proof (gap_split flags) as Hsplit. pose proof (gap_le flags) as Hgap.
  pose proof (gap_drop flags) as Hhead.
  destruct (drop (gap flags) flags) as [| b r1] eqn:Hr1.
  - rewrite app_nil_r in Hsplit. rewrite Hsplit, true_runs_all_false. constructor.
  - destruct b; [| done]. clear Hhead.
    set (k := leading (true :: r1)).
    assert (0 < k)%nat as Hk by (unfold k; simpl; lia).
    pose proof (leading_split (true :: r1)) as Hsplit1. fold k in Hsplit1.
    pose proof (leading_drop (true :: r1)) as Hlead. fold k in Hlead.
    pose proof (leading_le (true :: r1)) as Hle. fold k in Hle.
    assert (length flags = (gap flags + length (true :: r1))%nat) as Hlen.
    { rewrite Hsplit at 1. by rewrite length_app, length_replicate. }
    assert (true_runs flags
            = Z.of_nat k :: true_runs (drop k (true :: r1))) as ->.
    { rewrite Hsplit, true_runs_skip. by apply true_runs_head. }
    assert (length (drop k (true :: r1)) < length flags)%nat as Hshorter
      by (rewrite length_drop; lia).
    remember (drop k (true :: r1)) as r2 eqn:Hr2. clear Hr2.
    rewrite Hsplit, Hsplit1. apply runs_next; [done | by apply leading_head |].
    by apply IH.
Qed.

(** The maximal runs of a sequence are determined by the sequence. *)
Lemma maximal_runs_unique flags runs :
  maximal_runs flags runs -> runs = true_runs flags.
Proof.
  induction 1 as [a | a k rest runs Hk Hhead _ IH].
  - by rewrite true_runs_all_false.
  - apply leading_head in Hhead. rewrite true_runs_skip.
    pose proof (leading_block k rest Hhead) as Hlead.
    rewrite true_runs_head by (rewrite Hlead; lia).
    rewrite Hlead, drop_block. by f_equal.
Qed.

End WarmSpells.

(** ** Exceedance flags *)

Section Exceedance.

Lemma Qltb_decide x y : Float.Qltb x y = bool_decide (x < y)%Q.
Proof.
  unfold Float.Qltb. destruct (Qle_bool y x) eqn:E; simpl.
  - apply Qle_bool_iff in E. symmetry. apply bool_decide_eq_false.
    by apply Qle_not_lt.
  - symmetry. apply bool_decide_eq_true. apply Qnot_le_lt.
    intros H. apply Qle_bool_iff in H. congruence.
Qed.

Lemma Qle_bool_decide x y : Qle_bool x y = bool_decide (x <= y)%Q.
Proof.
  destruct (Qle_bool x y) eqn:E; symmetry.
  - apply bool_decide_eq_true. by apply Qle_bool_iff.
  - apply bool_decide_eq_false. intros H. apply Qle_bool_iff in H. congruence.
Qed.

(** The flag computed row by row is the specified exceedance test. *)
Lemma exceeds_spec column p90 row :
  exceeds column p90 row = Spec.strictly_exceeds column p90 row.
Proof.
  unfold exceeds, Spec.strictly_exceeds, Series_get, Float.gt.
  destruct (col column row) as [v |]; [| done].
  destruct (p90 !! Daily.day_of_year row) as [[t |] |]; simpl; try done.
  apply Qltb_decide.
Qed.

Lemma exceeds_flags column p90 (year_df : DataFrame) :
  exceeds column p90 <$> year_df = Spec.strictly_exceeds column p90 <$> year_df.
Proof. apply list_fmap_ext. intros _ row _. apply exceeds_spec. Qed.

Lemma count_true_fmap {A} (f : A -> bool) (l : list A) :
  count_true (f <$> l) = len (filter (λ x, f x = true) l).
Proof.
  unfold count_true, len. f_equal.
  induction l as [| x l IH]; [done |].
  cbn [fmap list_fmap]. rewrite !filter_cons.
  destruct (f x); simpl; [by f_equal | done].
Qed.



End Exceedance.

(** ** Percentile baseline *)

Section Baseline.

Lemma mod366 x :
  -366 <= x < 732 ->
  x `mod` 366 = if x <? 0 then x + 366 else if x <? 366 then x else x - 366.
Proof.
  intros Hx. destruct (Z.ltb_spec x 0); [| destruct (Z.ltb_spec x 366)].
  - rewrite <- (Z.mod_add x 1 366) by lia. apply Z.mod_small. lia.
  - apply Z.mod_small. lia.
  - rewrite <- (Z.mod_add x (-1) 366) by lia. apply Z.mod_small. lia.
Qed.

(** The list built for day [d] holds exactly the days of the circular
    window around [d]. *)
Lemma doys_in_window_spec d a :
  1 <= d <= 366 -> a ∈ doys_in_window d 2 ↔ Spec.in_window d a.
Proof.
  intros Hd. unfold doys_in_window.
  change (range 0 (2 * 2 + 1)) with [0; 1; 2; 3; 4]. cbn [fmap list_fmap].
  rewrite !elem_of_cons, elem_of_nil.
  rewrite !mod366 by lia.
  unfold Spec.in_window, Spec.circular_distance.
  repeat match goal with |- context [?x <? ?y] => destruct (Z.ltb_spec x y) end; lia.
Qed.

(** The pool the loop body draws from the cleaned baseline rows is the
    specified one. *)
Lemma pool_model df column bs be (P : Z -> Prop) `{!∀ a, Decision (P a)} :
  Float.dropna (col column <$>
    filter (λ r, P (Daily.day_of_year r)) (baseline_rows df column bs be))
  = Spec.pool df column bs be P.
Proof.
  unfold baseline_rows, Spec.pool, Float.dropna.
  induction df as [| r df IH]; [done |].
  cbn [omap list_omap]. rewrite <- IH. clear IH.
  rewrite (filter_cons (λ r, bs <= Daily.year r ∧ Daily.year r <= be)).
  destruct (decide (bs <= Daily.year r ∧ Daily.year r <= be)) as [Hy | Hy].
  - rewrite (filter_cons (λ r, Float.notna (col column r) = true)).
    destruct (col column r) as [v |] eqn:Hv; simpl.
    + rewrite filter_cons.
      destruct (decide (P (Daily.day_of_year r))) as [Hp | Hp].
      * rewrite decide_True by done. simpl. by rewrite Hv.
      * rewrite decide_False by tauto. done.
    + by case_decide.
  - rewrite decide_False by tauto. done.
Qed.

Lemma pool_window_model df column bs be d :
  1 <= d <= 366 ->
  Float.dropna (col column <$>
    filter (λ r, Daily.day_of_year r ∈ doys_in_window d 2)
      (baseline_rows df column bs be))
  = Spec.pool df column bs be (Spec.in_window d).
Proof.
  intros Hd. rewrite <- pool_model. do 2 f_equal.
  apply list_filter_iff. intros r. by apply doys_in_window_spec.
Qed.

Lemma pool_exact_model df column bs be d :
  Float.dropna (col column <$>
    filter (λ r, Daily.day_of_year r = d) (baseline_rows df column bs be))
  = Spec.pool df column bs be (λ a, a = d).
Proof.
  by rewrite <- pool_model.
Qed.

Lemma np_percentile_valid a q :
  Spec.valid_percentile q -> np_percentile a q = Ok (linear_percentile a q).
Proof.
  intros [H0 H100]. unfold np_percentile. rewrite !Qltb_decide.
  rewrite !bool_decide_eq_false_2; [done | |].
  - by apply Qle_not_lt.
  - by apply Qle_not_lt.
Qed.


(** The loop body stores the specified threshold and does not raise. *)
Lemma day_threshold_spec df column bs be q d :
  1 <= d <= 366 -> Spec.valid_percentile q ->
  day_threshold (baseline_rows df column bs be) column q d
  = Ok (Spec.calendar_threshold df column bs be q d).
Proof.
  intros Hd Hq. unfold day_threshold, Spec.calendar_threshold.
  rewrite pool_window_model by done.
  rewrite pool_exact_model.
  destruct (Z.geb_spec (len (Spec.pool df column bs be (Spec.in_window d))) 10).
  - rewrite decide_True by lia. by apply np_percentile_valid.
  - rewrite decide_False by lia.
    destruct (Z.gtb_spec (len (Spec.pool df column bs be (λ a, a = d))) 0).
    + rewrite decide_True by lia. by apply np_percentile_valid.
    + rewrite decide_False by lia. done.
Qed.

Lemma filled_lookup f doys : forall m d,
  filled f m doys !! d = if decide (d ∈ doys) then Some (f d) else m !! d.
Proof.
  induction doys as [| a doys IH]; intros m d; unfold filled; cbn [foldl].
  - destruct (decide (d ∈ [])) as [H | _]; [by apply elem_of_nil in H | done].
  - fold (filled f (<[a := f a]> m) doys). rewrite IH.
    destruct (decide (d ∈ doys)) as [Hin | Hout].
    + rewrite decide_True; [done | by right].
    + destruct (decide (a = d)) as [-> | Hne].
      * rewrite lookup_insert_eq. rewrite decide_True; [done | by left].
      * rewrite lookup_insert_ne by done.
        rewrite decide_False; [done |].
        rewrite elem_of_cons. intros [Heq | Hin]; [by subst | done].
Qed.

Lemma build_loop_ok baseline column q f doys : forall m,
  (∀ d, d ∈ doys -> day_threshold baseline column q d = Ok (f d)) ->
  foldl
    (λ acc doy,
       p_by_doy ← acc;
       v ← day_threshold baseline column q doy;
       mret (<[doy := v]> p_by_doy))
    (Ok m) doys
  = Ok (filled f m doys).
Proof.
  induction doys as [| a doys IH]; intros m Hf; [done |].
  cbn [foldl]. cbn [mbind res_bind]. rewrite (Hf a) by (by left).
  cbn [mbind res_bind mret res_ret].
  rewrite IH; [done |]. intros d Hd. apply Hf. by right.
Qed.

Lemma elem_of_range a b d : d ∈ range a b ↔ a <= d < b.
Proof. unfold range. rewrite elem_of_seqZ. lia. Qed.

(** With a valid percentile the baseline is built without raising, and
    holds the specified threshold under every day of year from 1 to 366. *)
Lemma build_calendar_day_percentile_ok df column bs be q :
  Spec.valid_percentile q ->
  ∃ p_by_doy,
    build_calendar_day_percentile df column bs be q = Ok p_by_doy
    ∧ ∀ d, p_by_doy !! d
           = if decide (1 <= d <= 366)
             then Some (Spec.calendar_threshold df column bs be q d) else None.
Proof.
  intros Hq. eexists. split.
  - unfold build_calendar_day_percentile.
    apply (build_loop_ok _ _ _ (Spec.calendar_threshold df column bs be q)).
    intros d Hd. apply elem_of_range in Hd. apply day_threshold_spec; [lia | done].
  - intros d. rewrite filled_lookup, lookup_empty.
    destruct (decide (1 <= d <= 366)) as [Hd | Hd].
    + rewrite decide_True; [done | apply elem_of_range; lia].
    + rewrite decide_False; [done | rewrite elem_of_range; lia].
Qed.

End Baseline.

(** ** The claims on the run encoder and the warm-spell index *)

(** C9.  With a minimum length of 1 the spell counter counts every flag that
    is set: [_count_days_in_spells flags 1] is the number of [true] in
    [flags], for every finite boolean sequence. *)
Theorem count_days_in_spells_min1 (flags : list bool) :
  _count_days_in_spells flags 1 = RunEncoder.count_of_true flags.
Proof.
  rewrite count_days_in_spells_spec. unfold RunEncoder.days_in_qualifying_runs.
  pose proof (true_runs_from_pos 0 flags ltac:(lia)) as Hpos.
  pose proof (true_runs_from_sum 0 flags ltac:(lia)) as Hsum.
  fold (RunEncoder.true_runs flags) in Hpos, Hsum.
  rewrite <- (Z.add_0_l (RunEncoder.count_of_true flags)), <- Hsum.
  clear Hsum. f_equal. induction Hpos as [| r rs Hr _ IH]; [done |].
  simpl in Hr. rewrite filter_cons_True by (simpl; lia). by rewrite IH.
Qed.

(** C4.  [calculate_wsdi] with the minimum duration 6 is the total length of
    the maximal runs of at least 6 consecutive days whose [temp_max] strictly
    exceeds the day's threshold (a missing value or an undefined threshold
    does not exceed).  When the exceedance days of the year form one run of
    [k] days, the index is [k] if [k >= 6] and 0 otherwise: 0 for 5 days, 6
    for 6 days, 7 for 7 days. *)
Theorem calculate_wsdi_spec (year_df : DataFrame) (p90_tmax : gmap Z float) :
  let warm := Spec.strictly_exceeds temp_max p90_tmax <$> year_df in
  (∃ runs : list Z, RunEncoder.maximal_runs warm runs)
  ∧ (∀ runs : list Z,
       RunEncoder.maximal_runs warm runs ->
       calculate_wsdi year_df p90_tmax WSDI_MIN_DURATION
       = RunEncoder.Zsum (filter (λ r, 6 <= r) runs))
  ∧ calculate_wsdi year_df p90_tmax WSDI_MIN_DURATION
    = RunEncoder.days_in_qualifying_runs warm 6
  ∧ ∀ a k b : nat,
      warm = replicate a false ++ replicate k true ++ replicate b false ->
      calculate_wsdi year_df p90_tmax WSDI_MIN_DURATION
      = if decide (6 <= k)%nat then Z.of_nat k else 0.
Proof.
  intros warm.
  assert (calculate_wsdi year_df p90_tmax WSDI_MIN_DURATION
          = RunEncoder.days_in_qualifying_runs warm 6) as Heq.
  { unfold calculate_wsdi, WSDI_MIN_DURATION, warm.
    by rewrite count_days_in_spells_spec, exceeds_flags. }
  split; [| split; [| split; [exact Heq |]]].
  - exists (RunEncoder.true_runs warm). apply true_runs_maximal.
  - intros runs Hruns. by rewrite Heq, (maximal_runs_unique warm runs Hruns).
  - intros a k b Hflags. rewrite Heq, Hflags, days_single_run.
    repeat case_decide; lia.
Qed.

Lemma calculate_wsdi_spec_witness :
  calculate_wsdi (one_spell_year 5) flat_p90 WSDI_MIN_DURATION = 0
  ∧ calculate_wsdi (one_spell_year 6) flat_p90 WSDI_MIN_DURATION = 6
  ∧ calculate_wsdi (one_spell_year 7) flat_p90 WSDI_MIN_DURATION = 7.
Proof.
  split; [| split].
  - apply (proj2 (proj2 (proj2 (calculate_wsdi_spec (one_spell_year 5) flat_p90))) 2 5 5)%nat.
    vm_compute. reflexivity.
  - apply (proj2 (proj2 (proj2 (calculate_wsdi_spec (one_spell_year 6) flat_p90))) 2 6 4)%nat.
    vm_compute. reflexivity.
  - apply (proj2 (proj2 (proj2 (calculate_wsdi_spec (one_spell_year 7) flat_p90))) 2 7 3)%nat.
    vm_compute. reflexivity.
Defined.

(** ** The claims on the percentile baseline *)

Lemma build_reads_baseline_rows (df1 df2 : DataFrame) column bs be q :
  Spec.rows_in_range bs be df1 = Spec.rows_in_range bs be df2 ->
  build_calendar_day_percentile df1 column bs be q
  = build_calendar_day_percentile df2 column bs be q.
Proof.
  intros Hsame. unfold build_calendar_day_percentile, baseline_rows.
  unfold Spec.rows_in_range in Hsame. by rewrite Hsame.
Qed.

(** Changing rows outside the range, and keeping them outside, leaves the
    rows of the range as they were. *)
Lemma rows_in_range_inflate (inflate : Daily.t -> Daily.t) bs be (df : DataFrame) :
  (∀ r, bs <= Daily.year r <= be -> inflate r = r) ->
  (∀ r, ¬ (bs <= Daily.year r <= be) -> ¬ (bs <= Daily.year (inflate r) <= be)) ->
  Spec.rows_in_range bs be (inflate <$> df) = Spec.rows_in_range bs be df.
Proof.
  intros Hin Hout. unfold Spec.rows_in_range.
  induction df as [| r df IH]; [done |].
  cbn [fmap list_fmap]. rewrite !filter_cons.
  destruct (decide (bs <= Daily.year r ∧ Daily.year r <= be)) as [Hr | Hr].
  - rewrite (Hin r Hr). rewrite decide_True by done. by f_equal.
  - rewrite decide_False by (by apply Hout). done.
Qed.

(** C2.  [build_calendar_day_percentile] depends only on the rows whose year
    lies in [[baseline_start, baseline_end]]: two frames with the same rows
    in that range give the same result, whatever their other rows hold; in
    particular the result does not change when the rows outside the range
    are rewritten to any values. *)
Theorem baseline_ignores_other_years (df1 df2 : DataFrame) (column : Column)
    (baseline_start baseline_end : Z) (percentile : Q) :
  (Spec.rows_in_range baseline_start baseline_end df1
   = Spec.rows_in_range baseline_start baseline_end df2 ->
   build_calendar_day_percentile df1 column baseline_start baseline_end percentile
   = build_calendar_day_percentile df2 column baseline_start baseline_end percentile)
  ∧ ∀ inflate : Daily.t -> Daily.t,
      (∀ r, baseline_start <= Daily.year r <= baseline_end -> inflate r = r) ->
      (∀ r, ¬ (baseline_start <= Daily.year r <= baseline_end) ->
            ¬ (baseline_start <= Daily.year (inflate r) <= baseline_end)) ->
      build_calendar_day_percentile (inflate <$> df1) column
        baseline_start baseline_end percentile
      = build_calendar_day_percentile df1 column
          baseline_start baseline_end percentile.
Proof.
  split.
  - apply build_reads_baseline_rows.
  - intros inflate Hin Hout. apply build_reads_baseline_rows.
    by apply rows_in_range_inflate.
Qed.

Lemma baseline_ignores_other_years_witness :
  build_calendar_day_percentile mild_frame temp_max BASELINE_START BASELINE_END 90
  = build_calendar_day_percentile inflated_frame temp_max BASELINE_START BASELINE_END 90.
Proof.
  apply (proj1 (baseline_ignores_other_years mild_frame inflated_frame temp_max
                  BASELINE_START BASELINE_END 90)).
  vm_compute. reflexivity.
Defined.



(** ** The claim on the percentile-exceedance rates *)



(** ** The claim on dry and wet days *)

(** C5, as the code has it.  On every day whose precipitation is not
    missing, the dry flag of [calculate_cdd] (precipitation below 1.0) and
    the wet flag of [calculate_cwd] (precipitation at or above 1.0) are
    complementary: exactly one of them is set, and precipitation equal to
    1.0 is wet, not dry.  A day whose precipitation is missing is flagged
    neither dry nor wet. *)
Theorem dry_wet_classification (precip_series : list float) (i : nat) (p : float) :
  precip_series !! i = Some p ->
  ∃ dry wet : bool,
    (dry_flag <$> precip_series) !! i = Some dry
    ∧ (wet_flag <$> precip_series) !! i = Some wet
    ∧ match p with
      | Some v =>
          (dry = true ↔ (v < 1)%Q) ∧ (wet = true ↔ (1 <= v)%Q)
          ∧ dry = negb wet
          ∧ ((v == 1)%Q -> wet = true ∧ dry = false)
      | None => dry = false ∧ wet = false
      end.
Proof.
  intros Hi. exists (dry_flag p), (wet_flag p).
  rewrite !list_lookup_fmap, Hi. do 2 (split; [done |]).
  destruct p as [v |]; [| done].
  unfold dry_flag, wet_flag, Float.lt, Float.gt, Float.ge,
    DRY_DAY_THRESHOLD, WET_DAY_THRESHOLD.
  rewrite Qltb_decide, Qle_bool_decide.
  destruct (decide (v < 1)%Q) as [Hlt | Hge].
  - rewrite bool_decide_eq_true_2 by done.
    rewrite bool_decide_eq_false_2 by (by apply Qlt_not_le).
    split; [done |]. split; [| split; [done |]].
    + split; [done |]. intros Hle. exfalso. by apply (Qlt_not_le v 1).
    + intros Heq. exfalso. rewrite Heq in Hlt. by apply (Qlt_irrefl 1).
  - apply Qnot_lt_le in Hge as Hle.
    rewrite bool_decide_eq_false_2 by done.
    rewrite bool_decide_eq_true_2 by done.
    split; [done |]. split; [done |]. split; done.
Qed.

Lemma dry_wet_classification_witness :
  ∃ dry wet : bool,
    (dry_flag <$> gappy_precip) !! 2%nat = Some dry
    ∧ (wet_flag <$> gappy_precip) !! 2%nat = Some wet
    ∧ (dry = true ↔ (1 < 1)%Q) ∧ (wet = true ↔ (1 <= 1)%Q)
    ∧ dry = negb wet
    ∧ ((1 == 1)%Q -> wet = true ∧ dry = false).
Proof.
  apply (dry_wet_classification gappy_precip 2 (Some 1%Q)). reflexivity.
Defined.

(** C5 as stated fails on a day without a precipitation value: it is
    flagged neither dry nor wet, so the two flags do not partition the
    days of the series. *)
Lemma missing_precipitation_neither_dry_nor_wet :
  (dry_flag <$> gappy_precip) !! 1%nat = Some false
  ∧ (wet_flag <$> gappy_precip) !! 1%nat = Some false
  ∧ ¬ Spec.dry_wet_partition gappy_precip.
Proof.
  split; [reflexivity |]. split; [reflexivity |].
  intros H. specialize (H 1%nat Float.nan eq_refl). discriminate H.
Qed.

(** ** The claim on the trend tests *)

Section TrendTests.

Variable kendalltau : list Z -> list Q -> float * float.

Lemma direction_of_tau series :
  3 <= len (Float.dropna series) ->
  Trend.trend_direction (mann_kendall_trend kendalltau series)
  = if Float.gt (Spec.kendall_tau kendalltau series) (Some 0%Q) then "increasing"
    else if Float.lt (Spec.kendall_tau kendalltau series) (Some 0%Q) then "decreasing"
    else "no_trend".
Proof.
  intros Hn. unfold mann_kendall_trend, Spec.kendall_tau.
  destruct (Z.ltb_spec (len (Float.dropna series)) 3) as [Hlt | _]; [lia |].
  by destruct (kendalltau _ _) as [tau p].
Qed.

End TrendTests.

(** C6.  With fewer than 3 non-missing points (the empty series included)
    [mann_kendall_trend] returns NaN for [tau] and [p_value] with the
    direction ["insufficient_data"], and [linear_regression_trend] returns
    normally, with every field NaN; neither raises.  With 3 valid points or
    more, the direction of [mann_kendall_trend] is ["increasing"] when the
    coefficient is positive, ["decreasing"] when it is negative and
    ["no_trend"] when it is zero. *)
Theorem trend_tests_insufficient_data
    (kendalltau : list Z -> list Q -> float * float)
    (linregress : list Q -> list Q -> res Trend.LinregressResult)
    (series : list float) (rows : list (Z * float)) :
  (len (Float.dropna series) < 3 ->
   mann_kendall_trend kendalltau series = Spec.insufficient_mann_kendall)
  ∧ (len (filter (λ r, is_Some (snd r)) rows) < 3 ->
     linear_regression_trend linregress rows = Ok Spec.undefined_regression)
  ∧ mann_kendall_trend kendalltau [] = Spec.insufficient_mann_kendall
  ∧ linear_regression_trend linregress [] = Ok Spec.undefined_regression
  ∧ (3 <= len (Float.dropna series) ->
     ∀ t : Q,
       Spec.kendall_tau kendalltau series = Some t ->
       let direction :=
         Trend.trend_direction (mann_kendall_trend kendalltau series) in
       ((0 < t)%Q -> direction = "increasing")
       ∧ ((t < 0)%Q -> direction = "decreasing")
       ∧ ((t == 0)%Q -> direction = "no_trend")).
Proof.
  split; [| split; [| split; [| split]]].
  - intros Hn. unfold mann_kendall_trend.
    destruct (Z.ltb_spec (len (Float.dropna series)) 3); [done | lia].
  - intros Hn. unfold linear_regression_trend.
    assert (filter (λ r : Z * float, Float.notna r.2 = true) rows
            = filter (λ r, is_Some (snd r)) rows) as ->.
    { apply list_filter_iff.
      intros [y [v |]]; simpl;
        [split; [by eexists | done] | split; [done | by intros [? ?]]]. }
    unfold len in *. rewrite length_fmap.
    apply Z.ltb_lt in Hn. by rewrite Hn.
  - reflexivity.
  - reflexivity.
  - intros Hn t Ht direction. unfold direction.
    rewrite direction_of_tau by done. rewrite Ht.
    unfold Float.lt, Float.gt. rewrite !Qltb_decide.
    split; [| split].
    + intros Hpos. by rewrite bool_decide_eq_true_2.
    + intros Hneg. rewrite bool_decide_eq_false_2 by (by apply Qle_not_lt, Qlt_le_weak).
      by rewrite bool_decide_eq_true_2.
    + intros Hz. rewrite !bool_decide_eq_false_2; [done | |].
      * rewrite Hz. apply Qlt_irrefl.
      * rewrite Hz. apply Qlt_irrefl.
Qed.

Lemma trend_tests_insufficient_data_witness :
  mann_kendall_trend sample_kendalltau [Some 1%Q; Float.nan; Some 2%Q]
  = Spec.insufficient_mann_kendall
  ∧ linear_regression_trend sample_linregress [(2000, Some 1%Q); (2001, Float.nan)]
    = Ok Spec.undefined_regression
  ∧ Trend.trend_direction
      (mann_kendall_trend sample_kendalltau [Some 1%Q; Some 3%Q; Some 2%Q])
    = "increasing".
Proof.
  split; [| split].
  - destruct (trend_tests_insufficient_data sample_kendalltau sample_linregress
                [Some 1%Q; Float.nan; Some 2%Q] []) as (Hmk & _).
    apply Hmk. vm_compute. reflexivity.
  - destruct (trend_tests_insufficient_data sample_kendalltau sample_linregress
                [] [(2000, Some 1%Q); (2001, Float.nan)]) as (_ & Hlr & _).
    apply Hlr. vm_compute. reflexivity.
  - destruct (trend_tests_insufficient_data sample_kendalltau sample_linregress
                [Some 1%Q; Some 3%Q; Some 2%Q] []) as (_ & _ & _ & _ & Hdir).
    apply (Hdir ltac:(vm_compute; discriminate) (1 # 3)%Q eq_refl).
    reflexivity.
Defined.

(** ** The claim on the hot season *)

Section HotSeason.

Lemma hot_rows (ydf : DataFrame) :
  filter (λ r, Float.ge (Daily.temp_max r) (Some SU30_THRESHOLD) = true) ydf
  = filter Spec.hot_day ydf.
Proof.
  apply list_filter_iff. intros r. unfold Spec.hot_day, Float.ge, SU30_THRESHOLD.
  destruct (Daily.temp_max r) as [v |]; [| done].
  rewrite Qle_bool_decide. apply bool_decide_eq_true.
Qed.

Lemma Zlist_min_spec x rest :
  Zlist_min x rest ∈ x :: rest ∧ ∀ d, d ∈ x :: rest -> Zlist_min x rest <= d.
Proof.
  unfold Zlist_min. induction rest as [| y rest [IHin IHle]]; simpl.
  - split; [by left |]. intros d Hd. apply list_elem_of_singleton in Hd. lia.
  - split.
    + destruct (Z.min_spec y (foldr Z.min x rest)) as [[_ ->] | [_ ->]].
      * right. by left.
      * apply elem_of_cons in IHin as [-> | Hin]; [by left | right; by right].
    + intros d Hd. pose proof (IHle x ltac:(by left)).
      apply elem_of_cons in Hd as [-> | Hd]; [lia |].
      apply elem_of_cons in Hd as [-> | Hd]; [lia |].
      pose proof (IHle d ltac:(by right)). lia.
Qed.

Lemma Zlist_max_spec x rest :
  Zlist_max x rest ∈ x :: rest ∧ ∀ d, d ∈ x :: rest -> d <= Zlist_max x rest.
Proof.
  unfold Zlist_max. induction rest as [| y rest [IHin IHle]]; simpl.
  - split; [by left |]. intros d Hd. apply list_elem_of_singleton in Hd. lia.
  - split.
    + destruct (Z.max_spec y (foldr Z.max x rest)) as [[_ ->] | [_ ->]].
      * apply elem_of_cons in IHin as [-> | Hin]; [by left | right; by right].
      * right. by left.
    + intros d Hd. pose proof (IHle x ltac:(by left)).
      apply elem_of_cons in Hd as [-> | Hd]; [lia |].
      apply elem_of_cons in Hd as [-> | Hd]; [lia |].
      pose proof (IHle d ltac:(by right)). lia.
Qed.

(** The seasonal fields of the annual record are those of [hot_season]. *)
Lemma annual_record_hot_season year ydf p90_tmax p90_tmin p95 :
  let record := annual_record year ydf p90_tmax p90_tmin p95 in
  hot_season ydf
  = (Annual.first_hot_day record, Annual.last_hot_day record,
     Annual.hot_season_length record).
Proof.
  unfold annual_record. by destruct (hot_season ydf) as [[first last] length].
Qed.

End HotSeason.

(** C10.  In a year with at least one day at or above 30 degrees, the
    reported [first_hot_day] and [last_hot_day] are the smallest and the
    largest day of year of such days and [hot_season_length] is their
    difference, with no [+ 1]: a year with exactly one hot day reports the
    length 0, as does a year with no hot day, whose [first_hot_day] and
    [last_hot_day] are undefined. *)
Theorem hot_season_length_spec (year : Z) (ydf : DataFrame)
    (p90_tmax p90_tmin : gmap Z float) (p95_tmax_scalar : float) :
  let record := annual_record year ydf p90_tmax p90_tmin p95_tmax_scalar in
  let hot_doys := Daily.day_of_year <$> filter Spec.hot_day ydf in
  (hot_doys ≠ [] ->
   ∃ first last : Z,
     Annual.first_hot_day record = Some first
     ∧ Annual.last_hot_day record = Some last
     ∧ first ∈ hot_doys ∧ last ∈ hot_doys
     ∧ (∀ d, d ∈ hot_doys -> first <= d <= last)
     ∧ Annual.hot_season_length record = last - first)
  ∧ (∀ d, hot_doys = [d] -> Annual.hot_season_length record = 0)
  ∧ (hot_doys = [] ->
     Annual.first_hot_day record = None
     ∧ Annual.last_hot_day record = None
     ∧ Annual.hot_season_length record = 0).
Proof.
  intros record hot_doys.
  pose proof (annual_record_hot_season year ydf p90_tmax p90_tmin p95_tmax_scalar)
    as Hrec.
  cbv zeta in Hrec. fold record in Hrec.
  unfold hot_season in Hrec. rewrite hot_rows in Hrec. fold hot_doys in Hrec.
  split; [| split].
  - intros Hne. destruct hot_doys as [| d rest]; [done |].
    injection Hrec as Hfirst Hlast Hlen.
    exists (Zlist_min d rest), (Zlist_max d rest).
    destruct (Zlist_min_spec d rest) as [Hmin_in Hmin_le].
    destruct (Zlist_max_spec d rest) as [Hmax_in Hmax_le].
    repeat split; try done.
    + by apply Hmin_le.
    + by apply Hmax_le.
  - intros d Hd. rewrite Hd in Hrec. injection Hrec as _ _ Hlen.
    rewrite <- Hlen. unfold Zlist_min, Zlist_max. simpl. lia.
  - intros Hnil. rewrite Hnil in Hrec. by injection Hrec as <- <- <-.
Qed.

Lemma hot_season_length_spec_witness :
  Annual.hot_season_length
    (annual_record 2001 one_hot_day_year flat_p90 flat_p90 (Some 35%Q)) = 0
  ∧ (Annual.first_hot_day
       (annual_record 2001 no_hot_day_year flat_p90 flat_p90 (Some 35%Q)) = None
     ∧ Annual.last_hot_day
         (annual_record 2001 no_hot_day_year flat_p90 flat_p90 (Some 35%Q)) = None
     ∧ Annual.hot_season_length
         (annual_record 2001 no_hot_day_year flat_p90 flat_p90 (Some 35%Q)) = 0).
Proof.
  split.
  - destruct (hot_season_length_spec 2001 one_hot_day_year flat_p90 flat_p90
                (Some 35%Q)) as (_ & Hone & _).
    apply (Hone 40). vm_compute. reflexivity.
  - destruct (hot_season_length_spec 2001 no_hot_day_year flat_p90 flat_p90
                (Some 35%Q)) as (_ & _ & Hnone).
    apply Hnone. vm_compute. reflexivity.
Defined.

(** ** The claim on the anomaly *)

Section Anomaly.



End Anomaly.




(** ** The claim on the decadal aggregation *)

Section Decades.

Lemma elem_of_sorted_unique x l : x ∈ sorted_unique l ↔ x ∈ l.
Proof.
  unfold sorted_unique. rewrite merge_sort_Permutation. apply elem_of_remove_dups.
Qed.

Lemma NoDup_sorted_unique l : NoDup (sorted_unique l).
Proof.
  unfold sorted_unique. rewrite merge_sort_Permutation. apply NoDup_remove_dups.
Qed.

Lemma Sorted_sorted_unique l : Sorted Z.le (sorted_unique l).
Proof. unfold sorted_unique. apply Sorted_merge_sort. apply _. Qed.


End Decades.



(** * Further properties *)

(** ** Runs and spells *)

Section RunHelpers.
Import RunEncoder.

Lemma longest_le_sum (l : list Z) :
  Forall (λ r, 0 < r) l -> 0 <= foldr Z.max 0 l <= Zsum l.
Proof.
  induction 1 as [| r l Hr _ IH]; simpl; [lia |]. simpl in Hr. lia.
Qed.

Lemma true_runs_pos flags : Forall (λ r, 0 < r) (true_runs flags).
Proof. apply true_runs_from_pos. lia. Qed.

Lemma true_runs_sum flags : Zsum (true_runs flags) = count_of_true flags.
Proof. unfold true_runs. rewrite true_runs_from_sum by lia. lia. Qed.

Lemma count_of_true_le flags : 0 <= count_of_true flags <= len flags.
Proof.
  unfold count_of_true, len.
  pose proof (length_filter (λ b, b = true) flags). lia.
Qed.

Lemma count_of_true_all flags :
  count_of_true flags = len flags ↔ Forall (λ b, b = true) flags.
Proof.
  unfold count_of_true, len. induction flags as [| b flags IH].
  - split; [constructor | done].
  - rewrite filter_cons. pose proof (length_filter (λ b, b = true) flags) as Hle.
    destruct b; simpl.
    + rewrite Forall_cons. split.
      * intros H. split; [done |]. apply IH. lia.
      * intros [_ H]. apply IH in H. lia.
    + split; [simpl in *; lia |]. intros H. by apply Forall_cons in H as [? _].
Qed.

Lemma count_of_true_none flags :
  count_of_true flags = 0 ↔ Forall (λ b, b = false) flags.
Proof.
  unfold count_of_true, len. induction flags as [| b flags IH].
  - split; [constructor | done].
  - rewrite filter_cons. destruct b; simpl.
    + split; [lia |]. intros H. by apply Forall_cons in H as [? _].
    + rewrite Forall_cons. split.
      * intros H. split; [done |]. by apply IH.
      * intros [_ H]. by apply IH.
Qed.

Lemma Zsum_pos_zero (l : list Z) :
  Forall (λ r, 0 < r) l -> (Zsum l = 0 ↔ l = []).
Proof.
  intros H. split; [| by intros ->].
  destruct H as [| r l Hr Hl]; [done |].
  pose proof (longest_le_sum l Hl). simpl in *. lia.
Qed.

Lemma longest_zero (l : list Z) :
  Forall (λ r, 0 < r) l -> (foldr Z.max 0 l = 0 ↔ l = []).
Proof.
  intros H. split; [| by intros ->].
  destruct H as [| r l Hr Hl]; [done |].
  pose proof (longest_le_sum l Hl). simpl in *. lia.
Qed.

Lemma qualifying_sum_bounds (l : list Z) (m : Z) :
  Forall (λ r, 0 < r) l ->
  0 <= Zsum (filter (λ r, m <= r) l) <= Zsum l
  ∧ (Zsum (filter (λ r, m <= r) l) = 0 ∨ m <= Zsum (filter (λ r, m <= r) l)).
Proof.
  induction 1 as [| r l Hr _ [IH1 IH2]]; [simpl; lia |].
  simpl in Hr. rewrite filter_cons. case_decide; simpl; lia.
Qed.

Lemma qualifying_sum_antitone (l : list Z) (m m' : Z) :
  Forall (λ r, 0 < r) l -> m <= m' ->
  Zsum (filter (λ r, m' <= r) l) <= Zsum (filter (λ r, m <= r) l).
Proof.
  intros H Hm. induction H as [| r l Hr Hl IH]; [done |].
  simpl in Hr. rewrite !filter_cons.
  pose proof (qualifying_sum_bounds l m Hl).
  repeat case_decide; simpl; lia.
Qed.

Lemma qualifying_sum_all (l : list Z) (m : Z) :
  Forall (λ r, 0 < r) l -> m <= 1 -> filter (λ r, m <= r) l = l.
Proof.
  intros H Hm. induction H as [| r l Hr _ IH]; [done |].
  simpl in Hr. rewrite filter_cons_True by (simpl; lia). by rewrite IH.
Qed.

(** The qualifying days vanish exactly when no run reaches the minimum. *)
Lemma qualifying_sum_longest (l : list Z) (m : Z) :
  Forall (λ r, 0 < r) l -> 1 <= m ->
  (Zsum (filter (λ r, m <= r) l) = 0 ↔ foldr Z.max 0 l < m)
  ∧ (m <= foldr Z.max 0 l -> foldr Z.max 0 l <= Zsum (filter (λ r, m <= r) l)).
Proof.
  intros H Hm. induction H as [| r l Hr Hl [IH1 IH2]]; [simpl; lia |].
  simpl in Hr. rewrite filter_cons.
  pose proof (qualifying_sum_bounds l m Hl) as [Hb _].
  pose proof (longest_le_sum l Hl) as Hl0.
  case_decide; simpl; lia.
Qed.

End RunHelpers.

Section MaxConsecutive.
Import RunEncoder.

Lemma max_consecutive_bounds flags : 0 <= _max_consecutive flags <= len flags.
Proof.
  rewrite max_consecutive_spec. unfold longest_run.
  pose proof (longest_le_sum _ (true_runs_pos flags)).
  pose proof (true_runs_sum flags). pose proof (count_of_true_le flags). lia.
Qed.

Lemma max_consecutive_le_count flags : _max_consecutive flags <= count_of_true flags.
Proof.
  rewrite max_consecutive_spec. unfold longest_run.
  pose proof (longest_le_sum _ (true_runs_pos flags)).
  pose proof (true_runs_sum flags). lia.
Qed.

Lemma max_consecutive_all_true flags :
  _max_consecutive flags = len flags ↔ Forall (λ b, b = true) flags.
Proof.
  split.
  - intros H. apply count_of_true_all.
    pose proof (max_consecutive_le_count flags). pose proof (count_of_true_le flags). lia.
  - intros Hall. rewrite max_consecutive_spec. unfold longest_run.
    assert (flags = replicate (length flags) true) as Hrep.
    { clear -Hall. induction Hall as [| b l -> _ IH]; [done |]. simpl. by f_equal. }
    destruct flags as [| b rest]; [done |].
    pose proof (true_runs_single 0 (length (b :: rest)) 0 ltac:(simpl; lia)) as Hone.
    simpl replicate in Hone at 1 3. rewrite app_nil_l, app_nil_r, <- Hrep in Hone.
    rewrite Hone. unfold len. simpl. lia.
Qed.

Lemma max_consecutive_all_false flags :
  _max_consecutive flags = 0 ↔ Forall (λ b, b = false) flags.
Proof.
  rewrite max_consecutive_spec. unfold longest_run.
  rewrite longest_zero by apply true_runs_pos.
  rewrite <- count_of_true_none, <- true_runs_sum.
  by rewrite Zsum_pos_zero by apply true_runs_pos.
Qed.

(** The scan without the early exit gives the same value. *)
Lemma max_consecutive_no_exit flags :
  fst (foldl max_consecutive_step (0, 0) flags) = _max_consecutive flags.
Proof.
  rewrite max_consecutive_scan by lia. rewrite max_consecutive_spec.
  unfold longest_run, true_runs.
  pose proof (longest_le_sum _ (true_runs_pos flags)). unfold true_runs in *. lia.
Qed.

Lemma true_runs_from_split cur l1 l2 :
  true_runs_from cur (l1 ++ false :: l2) = true_runs_from cur l1 ++ true_runs l2.
Proof.
  revert cur. induction l1 as [| [] l1 IH]; intros cur; simpl.
  - done.
  - apply IH.
  - by rewrite IH, app_assoc.
Qed.

Lemma longest_app (l1 l2 : list Z) :
  foldr Z.max 0 (l1 ++ l2) = Z.max (foldr Z.max 0 l1) (foldr Z.max 0 l2).
Proof.
  induction l1 as [| x l1 IH]; simpl.
  - pose proof (Z.le_max_l 0 0). induction l2; simpl; lia.
  - rewrite IH. lia.
Qed.

(** A flag that is not set splits the sequence: the longest run is the
    longer of the longest runs on either side. *)
Lemma max_consecutive_split l1 l2 :
  _max_consecutive (l1 ++ false :: l2)
  = Z.max (_max_consecutive l1) (_max_consecutive l2).
Proof.
  rewrite !max_consecutive_spec. unfold longest_run, true_runs.
  by rewrite true_runs_from_split, longest_app.
Qed.

End MaxConsecutive.

(** X1.  [_max_consecutive] is the length of the longest maximal run of
    [True]: however the flags are read as gaps separating maximal runs, it is
    the largest run length, 0 when there is no run.  It lies between 0 and the
    number of flags, equals that number exactly when every flag is set, and is
    0 exactly when none is. *)
Theorem max_consecutive_longest (flags : list bool) :
  (∀ runs : list Z,
     RunEncoder.maximal_runs flags runs ->
     _max_consecutive flags = foldr Z.max 0 runs)
  ∧ 0 <= _max_consecutive flags <= len flags
  ∧ (_max_consecutive flags = len flags ↔ Forall (λ b, b = true) flags)
  ∧ (_max_consecutive flags = 0 ↔ Forall (λ b, b = false) flags).
Proof.
  split; [| split; [| split]].
  - intros runs Hruns. rewrite max_consecutive_spec.
    by rewrite (maximal_runs_unique flags runs Hruns).
  - apply max_consecutive_bounds.
  - apply max_consecutive_all_true.
  - apply max_consecutive_all_false.
Qed.

(** X2.  [_count_days_in_spells] never counts more days than there are
    flags set, is either 0 or at least [min_duration], can only decrease when
    [min_duration] grows, and counts every flag set when [min_duration] is 1
    or less. *)
Theorem count_days_in_spells_bounds (flags : list bool) (min_duration : Z) :
  0 <= _count_days_in_spells flags min_duration <= RunEncoder.count_of_true flags
  ∧ RunEncoder.count_of_true flags <= len flags
  ∧ (_count_days_in_spells flags min_duration = 0
     ∨ min_duration <= _count_days_in_spells flags min_duration)
  ∧ (∀ longer : Z,
       min_duration <= longer ->
       _count_days_in_spells flags longer <= _count_days_in_spells flags min_duration)
  ∧ (min_duration <= 1 ->
     _count_days_in_spells flags min_duration = RunEncoder.count_of_true flags).
Proof.
  rewrite count_days_in_spells_spec. unfold RunEncoder.days_in_qualifying_runs.
  pose proof (true_runs_pos flags) as Hpos.
  pose proof (true_runs_sum flags) as Hsum.
  pose proof (count_of_true_le flags) as Hcount.
  pose proof (qualifying_sum_bounds _ min_duration Hpos) as [Hb Hz].
  split; [lia | split; [lia | split; [exact Hz | split]]].
  - intros longer Hlonger. rewrite count_days_in_spells_spec.
    by apply qualifying_sum_antitone.
  - intros Hm. by rewrite qualifying_sum_all.
Qed.

(** X3.  For a minimum duration of at least one day, [_count_days_in_spells]
    is 0 exactly when the longest run found by [_max_consecutive] is shorter
    than the minimum; otherwise it counts at least the days of that longest
    run. *)
Theorem spells_and_longest_run (flags : list bool) (min_duration : Z) :
  1 <= min_duration ->
  (_count_days_in_spells flags min_duration = 0
   ↔ _max_consecutive flags < min_duration)
  ∧ (min_duration <= _max_consecutive flags ->
     _max_consecutive flags <= _count_days_in_spells flags min_duration).
Proof.
  intros Hm. rewrite count_days_in_spells_spec, max_consecutive_spec.
  apply qualifying_sum_longest; [apply true_runs_pos | done].
Qed.

Lemma spells_and_longest_run_witness :
  1 <= 2
  ∧ (_count_days_in_spells [true; true; false; true] 2 = 0
     ↔ _max_consecutive [true; true; false; true] < 2)
  ∧ (2 <= _max_consecutive [true; true; false; true] ->
     _max_consecutive [true; true; false; true]
     <= _count_days_in_spells [true; true; false; true] 2).
Proof.
  split; [lia |]. apply (spells_and_longest_run [true; true; false; true] 2). lia.
Defined.

Section DryWet.
Import RunEncoder.

Lemma dry_wet_disjoint (s : list float) :
  count_of_true (dry_flag <$> s) + count_of_true (wet_flag <$> s) <= len s.
Proof.
  unfold count_of_true, len. induction s as [| p s IH]; [simpl; lia |].
  cbn [fmap list_fmap]. rewrite !filter_cons.
  assert (dry_flag p = false ∨ wet_flag p = false) as Hp.
  { destruct p as [v |]; [| by left].
    unfold dry_flag, wet_flag, Float.lt, Float.gt, Float.ge, Float.Qltb.
    destruct (Qle_bool _ v); [by left | by right]. }
  destruct (dry_flag p), (wet_flag p); simpl in *; destruct Hp; try done; lia.
Qed.

Lemma all_dry_flags (s : list float) :
  Forall (λ p, ∃ v, p = Some v ∧ (v < 1)%Q) s ->
  Forall (λ b, b = true) (dry_flag <$> s) ∧ Forall (λ b, b = false) (wet_flag <$> s).
Proof.
  induction 1 as [| p s (v & -> & Hv) _ [IH1 IH2]]; [by split |].
  cbn [fmap list_fmap]. split; constructor; try done.
  - unfold dry_flag, Float.lt, Float.gt, DRY_DAY_THRESHOLD.
    rewrite Qltb_decide. by apply bool_decide_eq_true.
  - unfold wet_flag, Float.ge, WET_DAY_THRESHOLD.
    rewrite Qle_bool_decide. apply bool_decide_eq_false. by apply Qlt_not_le.
Qed.

Lemma all_wet_flags (s : list float) :
  Forall (λ p, ∃ v, p = Some v ∧ (1 <= v)%Q) s ->
  Forall (λ b, b = false) (dry_flag <$> s) ∧ Forall (λ b, b = true) (wet_flag <$> s).
Proof.
  induction 1 as [| p s (v & -> & Hv) _ [IH1 IH2]]; [by split |].
  cbn [fmap list_fmap]. split; constructor; try done.
  - unfold dry_flag, Float.lt, Float.gt, DRY_DAY_THRESHOLD.
    rewrite Qltb_decide. apply bool_decide_eq_false. by apply Qle_not_lt.
  - unfold wet_flag, Float.ge, WET_DAY_THRESHOLD.
    rewrite Qle_bool_decide. by apply bool_decide_eq_true.
Qed.

Lemma len_fmap {A B} (f : A -> B) (l : list A) : len (f <$> l) = len l.
Proof. unfold len. by rewrite length_fmap. Qed.

Lemma streak_scan flags : forall st,
  foldl TestCwdCddEdge.streak_step st (TestCwdCddEdge.astype_int flags)
  = foldl max_consecutive_step st flags.
Proof.
  unfold TestCwdCddEdge.astype_int.
  induction flags as [| b flags IH]; intros [mx cur]; [done |].
  cbn [fmap list_fmap foldl]. rewrite <- IH. f_equal.
  by destruct b.
Qed.

End DryWet.

(** X4.  [calculate_cdd] and [calculate_cwd] lie between 0 and the number of
    days, and their sum does not exceed it.  When every day has less than
    1 mm the dry spell is the whole series and the wet spell 0; when every
    day has 1 mm or more it is the other way round. *)
Theorem dry_wet_spell_bounds (precip_series : list float) :
  0 <= calculate_cdd precip_series <= len precip_series
  ∧ 0 <= calculate_cwd precip_series <= len precip_series
  ∧ calculate_cdd precip_series + calculate_cwd precip_series <= len precip_series
  ∧ (Forall (λ p, ∃ v, p = Some v ∧ (v < 1)%Q) precip_series ->
     calculate_cdd precip_series = len precip_series
     ∧ calculate_cwd precip_series = 0)
  ∧ (Forall (λ p, ∃ v, p = Some v ∧ (1 <= v)%Q) precip_series ->
     calculate_cwd precip_series = len precip_series
     ∧ calculate_cdd precip_series = 0).
Proof.
  unfold calculate_cdd, calculate_cwd.
  pose proof (max_consecutive_bounds (dry_flag <$> precip_series)) as Hd.
  pose proof (max_consecutive_bounds (wet_flag <$> precip_series)) as Hw.
  rewrite len_fmap in Hd, Hw.
  split; [exact Hd | split; [exact Hw | split; [| split]]].
  - pose proof (max_consecutive_le_count (dry_flag <$> precip_series)).
    pose proof (max_consecutive_le_count (wet_flag <$> precip_series)).
    pose proof (dry_wet_disjoint precip_series). lia.
  - intros Hall. apply all_dry_flags in Hall as [Hdry Hwet].
    apply max_consecutive_all_true in Hdry. apply max_consecutive_all_false in Hwet.
    rewrite len_fmap in Hdry. by split.
  - intros Hall. apply all_wet_flags in Hall as [Hdry Hwet].
    apply max_consecutive_all_true in Hwet. apply max_consecutive_all_false in Hdry.
    rewrite len_fmap in Hwet. by split.
Qed.

(** X5.  The reference implementations of [test_cwd_cdd_edge.py] compute the
    same values as [calculate_cdd] and [calculate_cwd] of
    [calculate_metrics.py], on every series (missing values included). *)
Theorem reference_implementations_agree (precip : list float) :
  TestCwdCddEdge.calculate_cdd precip = calculate_cdd precip
  ∧ TestCwdCddEdge.calculate_cwd precip = calculate_cwd precip.
Proof.
  unfold TestCwdCddEdge.calculate_cdd, TestCwdCddEdge.calculate_cwd,
    calculate_cdd, calculate_cwd.
  rewrite !streak_scan, !max_consecutive_no_exit. by split.
Qed.

(** X6.  A day that is not dry cuts the dry spells: the longest dry spell of
    a series is then the longer of the longest ones before and after that
    day.  The same holds for wet spells and a day that is not wet.  A day
    without a reading is neither, so it cuts both. *)
Theorem spell_split_by_day (before after : list float) (p : float) :
  (dry_flag p = false ->
   calculate_cdd (before ++ p :: after)
   = Z.max (calculate_cdd before) (calculate_cdd after))
  ∧ (wet_flag p = false ->
     calculate_cwd (before ++ p :: after)
     = Z.max (calculate_cwd before) (calculate_cwd after))
  ∧ (p = Float.nan -> dry_flag p = false ∧ wet_flag p = false).
Proof.
  unfold calculate_cdd, calculate_cwd. rewrite !fmap_app. cbn [fmap list_fmap].
  split; [| split].
  - intros ->. apply max_consecutive_split.
  - intros ->. apply max_consecutive_split.
  - by intros ->.
Qed.

Section Rounding.

Lemma Qltb_comp x x' y y' :
  (x == x')%Q -> (y == y')%Q -> Float.Qltb x y = Float.Qltb x' y'.
Proof. intros Hx Hy. unfold Float.Qltb. by rewrite Hx, Hy. Qed.

Lemma round_half_even_comp x y :
  (x == y)%Q -> Float.round_half_even x = Float.round_half_even y.
Proof.
  intros Hxy. unfold Float.round_half_even.
  rewrite (Qfloor_comp x y Hxy).
  assert (x - inject_Z (Qfloor y) == y - inject_Z (Qfloor y))%Q as Hr by (by rewrite Hxy).
  by rewrite (Qltb_comp _ _ _ _ Hr (Qeq_refl _)), (Qltb_comp _ _ _ _ (Qeq_refl _) Hr).
Qed.

Lemma round_Q_comp x y n : (x == y)%Q -> Float.round_Q x n = Float.round_Q y n.
Proof.
  intros Hxy. unfold Float.round_Q.
  assert (x * inject_Z (10 ^ n) == y * inject_Z (10 ^ n))%Q as H by (by rewrite Hxy).
  by rewrite (round_half_even_comp _ _ H).
Qed.

(** Rounding to an integer moves a value by at most one half. *)
Lemma round_half_even_near x :
  (inject_Z (Float.round_half_even x) - (1 # 2) <= x)%Q
  ∧ (x <= inject_Z (Float.round_half_even x) + (1 # 2))%Q.
Proof.
  unfold Float.round_half_even.
  pose proof (Qfloor_le x) as Hlo. pose proof (Qlt_floor x) as Hhi.
  rewrite inject_Z_plus in Hhi. change (inject_Z 1) with 1%Q in Hhi.
  rewrite !Qltb_decide.
  destruct (decide (x - inject_Z (Qfloor x) < 1 # 2)%Q) as [H1 | H1].
  - rewrite bool_decide_eq_true_2 by done. split; lra.
  - rewrite bool_decide_eq_false_2 by done.
    destruct (decide ((1 # 2) < x - inject_Z (Qfloor x))%Q) as [H2 | H2].
    + rewrite bool_decide_eq_true_2 by done.
      rewrite inject_Z_plus. change (inject_Z 1) with 1%Q. split; lra.
    + rewrite bool_decide_eq_false_2 by done.
      destruct (Z.even (Qfloor x)); [split; lra |].
      rewrite inject_Z_plus. change (inject_Z 1) with 1%Q. split; lra.
Qed.

Lemma round_half_even_between (a b : Z) x :
  (inject_Z a <= x)%Q -> (x <= inject_Z b)%Q ->
  a <= Float.round_half_even x <= b.
Proof.
  intros Ha Hb. destruct (round_half_even_near x) as [Hlo Hhi].
  set (r := Float.round_half_even x) in *. split.
  - destruct (Z.le_gt_cases a r) as [H | H]; [done | exfalso].
    assert (r + 1 <= a) as H' by lia. rewrite Zle_Qle, inject_Z_plus in H'.
    change (inject_Z 1) with 1%Q in H'. lra.
  - destruct (Z.le_gt_cases r b) as [H | H]; [done | exfalso].
    assert (b + 1 <= r) as H' by lia. rewrite Zle_Qle, inject_Z_plus in H'.
    change (inject_Z 1) with 1%Q in H'. lra.
Qed.

(** A percentage stays a percentage when rounded to 2 decimals. *)
Lemma round_percentage x :
  (0 <= x)%Q -> (x <= 100)%Q ->
  (0 <= Float.round_Q x 2)%Q ∧ (Float.round_Q x 2 <= 100)%Q.
Proof.
  intros H0 H100. unfold Float.round_Q. rewrite Qred_correct.
  change (inject_Z (10 ^ 2)) with 100%Q.
  destruct (round_half_even_between 0 10000 (x * 100)) as [Hlo Hhi].
  - change (inject_Z 0) with 0%Q. lra.
  - change (inject_Z 10000) with 10000%Q. lra.
  - rewrite Zle_Qle in Hlo, Hhi.
    change (inject_Z 0) with 0%Q in Hlo. change (inject_Z 10000) with 10000%Q in Hhi.
    set (r := inject_Z (Float.round_half_even (x * 100))) in *.
    split.
    + apply Qle_shift_div_l; [reflexivity | lra].
    + apply Qle_shift_div_r; [reflexivity | lra].
Qed.

End Rounding.

Section Percentile.

Lemma insert_sorted_perm x l : insert_sorted x l ≡ₚ x :: l.
Proof.
  induction l as [| y l IH]; simpl; [done |].
  destruct (Qle_bool x y); [done |]. rewrite IH. apply Permutation_swap.
Qed.

Lemma sorted_perm a : sorted a ≡ₚ a.
Proof.
  unfold sorted. induction a as [| x a IH]; simpl; [done |].
  by rewrite insert_sorted_perm, IH.
Qed.

(** A percentile lies between any two bounds of the sample. *)
Lemma linear_percentile_bounds a q (lo hi : Q) :
  a ≠ [] -> Spec.valid_percentile q ->
  Forall (λ v, (lo <= v)%Q ∧ (v <= hi)%Q) a ->
  ∃ t, linear_percentile a q = Some t ∧ (lo <= t)%Q ∧ (t <= hi)%Q.
Proof.
  intros Ha [Hq0 Hq100] Hall. unfold linear_percentile.
  pose proof (sorted_perm a) as Hperm.
  rewrite <- Hperm in Hall.
  assert (length (sorted a) = length a) as Hlen by (by rewrite Hperm).
  destruct (sorted a) as [| x0 s'] eqn:Hs.
  { destruct a; [done | simpl in Hlen; lia]. }
  set (s := x0 :: s') in *. clearbody s.
  set (n := len s). assert (1 <= n) as Hn.
  { unfold n, len. rewrite Hlen. destruct a; [done | simpl; lia]. }
  set (pos := (q / 100 * inject_Z (n - 1))%Q).
  assert (0 <= inject_Z (n - 1))%Q as Hn1.
  { change 0%Q with (inject_Z 0). rewrite <- Zle_Qle. lia. }
  assert (0 <= pos)%Q as Hpos0.
  { unfold pos. apply Qmult_le_0_compat; [| done].
    apply Qle_shift_div_l; [reflexivity | lra]. }
  assert (pos <= inject_Z (n - 1))%Q as Hpos1.
  { unfold pos. assert (q / 100 <= 1)%Q as Hq1.
    { apply Qle_shift_div_r; [reflexivity | lra]. }
    assert (0 <= q / 100)%Q as Hq2.
    { apply Qle_shift_div_l; [reflexivity | lra]. }
    nra. }
  set (lo_i := Qfloor pos).
  assert (0 <= lo_i <= n - 1) as Hlo_i.
  { unfold lo_i. split.
    - rewrite <- (Qfloor_Z 0). by apply Qfloor_resp_le.
    - rewrite <- (Qfloor_Z (n - 1)). by apply Qfloor_resp_le. }
  set (hi_i := Z.min (lo_i + 1) (n - 1)).
  assert (0 <= hi_i <= n - 1) as Hhi_i by (unfold hi_i; lia).
  assert (∀ i, 0 <= i <= n - 1 ->
            ∃ v, s !! Z.to_nat i = Some v ∧ (lo <= v)%Q ∧ (v <= hi)%Q) as Hget.
  { intros i Hi. destruct (lookup_lt_is_Some_2 s (Z.to_nat i)) as [v Hv].
    - unfold n, len in Hi. lia.
    - exists v. split; [done |].
      by apply (Forall_lookup_1 _ _ _ _ Hall Hv). }
  destruct (Hget lo_i Hlo_i) as (x & Hx & Hx1 & Hx2).
  destruct (Hget hi_i Hhi_i) as (y & Hy & Hy1 & Hy2).
  fold n pos lo_i hi_i. rewrite Hx, Hy. simpl.
  eexists. split; [reflexivity |]. rewrite Qred_correct.
  pose proof (Qfloor_le pos) as Hf1. pose proof (Qlt_floor pos) as Hf2.
  fold lo_i in Hf1, Hf2. rewrite inject_Z_plus in Hf2.
  change (inject_Z 1) with 1%Q in Hf2.
  set (frac := (pos - inject_Z lo_i)%Q).
  assert (0 <= frac)%Q as Hfr0 by (unfold frac; lra).
  assert (frac <= 1)%Q as Hfr1 by (unfold frac; lra).
  split; nra.
Qed.

End Percentile.

Section BaselineMore.

Lemma pool_Forall df column bs be (P : Z -> Prop) `{!∀ a, Decision (P a)}
    (R : Q -> Prop) :
  (∀ r v, r ∈ df -> bs <= Daily.year r <= be -> col column r = Some v -> R v) ->
  Forall R (Spec.pool df column bs be P).
Proof.
  intros HR. unfold Spec.pool. apply Forall_forall. intros v Hv.
  apply list_elem_of_omap in Hv as (r & Hr & Hv).
  destruct (decide _) as [[Hy _] | _]; [| done]. by apply (HR r v).
Qed.

Lemma pool_elem df column bs be (P : Z -> Prop) `{!∀ a, Decision (P a)} r v :
  r ∈ df -> bs <= Daily.year r <= be -> P (Daily.day_of_year r) ->
  col column r = Some v -> v ∈ Spec.pool df column bs be P.
Proof.
  intros Hr Hy Hp Hv. unfold Spec.pool. apply list_elem_of_omap.
  exists r. split; [done |]. by rewrite decide_True.
Qed.

Lemma pool_nil_inv df column bs be (P : Z -> Prop) `{!∀ a, Decision (P a)} :
  Spec.pool df column bs be P = [] ->
  ∀ r, r ∈ df -> bs <= Daily.year r <= be -> P (Daily.day_of_year r) ->
       col column r = None.
Proof.
  intros Hnil r Hr Hy Hp. destruct (col column r) as [v |] eqn:Hv; [| done].
  pose proof (pool_elem df column bs be P r v Hr Hy Hp Hv) as Hin.
  rewrite Hnil in Hin. by apply elem_of_nil in Hin.
Qed.

Lemma len_pos_nonempty {A} (l : list A) : 0 < len l ↔ l ≠ [].
Proof. unfold len. destruct l; simpl; split; (done || lia). Qed.

(** With a percentile outside [[0, 100]] the loop body raises as soon as it
    has a sample to hand to [np.percentile]. *)
Lemma day_threshold_invalid df column bs be q d :
  1 <= d <= 366 -> ¬ Spec.valid_percentile q ->
  day_threshold (baseline_rows df column bs be) column q d
  = if decide (10 <= len (Spec.pool df column bs be (Spec.in_window d))
               ∨ 0 < len (Spec.pool df column bs be (λ a, a = d)))
    then Raise ValueError else Ok Float.nan.
Proof.
  intros Hd Hq. unfold day_threshold.
  rewrite pool_window_model by done. rewrite pool_exact_model.
  assert (∀ a, np_percentile a q = Raise ValueError) as Hraise.
  { intros a. unfold np_percentile. rewrite !Qltb_decide.
    destruct (decide (q < 0)%Q) as [H0 | H0].
    - by rewrite bool_decide_eq_true_2.
    - rewrite (bool_decide_eq_false_2 (q < 0)%Q) by done.
      destruct (decide (100 < q)%Q) as [H1 | H1].
      + by rewrite bool_decide_eq_true_2.
      + exfalso. apply Hq. split; by apply Qnot_lt_le. }
  destruct (Z.geb_spec (len (Spec.pool df column bs be (Spec.in_window d))) 10).
  - rewrite decide_True by lia. apply Hraise.
  - destruct (Z.gtb_spec (len (Spec.pool df column bs be (λ a, a = d))) 0).
    + rewrite decide_True by lia. apply Hraise.
    + rewrite decide_False by lia. done.
Qed.

Lemma build_loop_raised baseline column q doys (e : exn) :
  foldl
    (λ (acc : res (gmap Z float)) doy,
       p_by_doy ← acc;
       v ← day_threshold baseline column q doy;
       mret (<[doy := v]> p_by_doy))
    (Raise e) doys
  = Raise e.
Proof. induction doys as [| a doys IH]; [done |]. cbn [foldl]. apply IH. Qed.

(** The loop raises when some day of the list raises and the days before it
    either store a value or raise the same exception. *)
Lemma build_loop_raises baseline column q doys : forall m : gmap Z float,
  (∀ d, d ∈ doys ->
        day_threshold baseline column q d = Raise ValueError
        ∨ ∃ v, day_threshold baseline column q d = Ok v) ->
  (∃ d, d ∈ doys ∧ day_threshold baseline column q d = Raise ValueError) ->
  foldl
    (λ acc doy,
       p_by_doy ← acc;
       v ← day_threshold baseline column q doy;
       mret (<[doy := v]> p_by_doy))
    (Ok m) doys
  = Raise ValueError.
Proof.
  induction doys as [| a doys IH]; intros m Hall (d & Hd & Hraise).
  - by apply elem_of_nil in Hd.
  - cbn [foldl]. cbn [mbind res_bind].
    destruct (Hall a ltac:(by left)) as [Ha | [v Ha]]; rewrite Ha;
      cbn [mbind res_bind mret res_ret].
    + apply build_loop_raised.
    + apply IH.
      * intros d' Hd'. apply Hall. by right.
      * apply elem_of_cons in Hd as [-> | Hd]; [congruence |]. by exists d.
Qed.

(** The rows the baseline is drawn from: year in range, a value of the
    column, a day of year between 1 and 366. *)
End BaselineMore.

(** X7.  With a percentile outside [0, 100],
    [build_calendar_day_percentile] raises [ValueError] as soon as one row of
    the baseline years has a value on a day 1 to 366; with no such row it
    returns thresholds that are NaN on every day, the percentile never being
    evaluated. *)
Theorem build_invalid_percentile (df : DataFrame) (column : Column)
    (baseline_start baseline_end : Z) (percentile : Q) :
  (percentile < 0)%Q ∨ (100 < percentile)%Q ->
  ((∃ r, r ∈ df ∧ baseline_observation column baseline_start baseline_end r) ->
   build_calendar_day_percentile df column baseline_start baseline_end percentile
   = Raise ValueError)
  ∧ ((∀ r, r ∈ df -> ¬ baseline_observation column baseline_start baseline_end r) ->
     ∃ p_by_doy,
       build_calendar_day_percentile df column baseline_start baseline_end percentile
       = Ok p_by_doy
       ∧ ∀ d, 1 <= d <= 366 -> p_by_doy !! d = Some Float.nan).
Proof.
  intros Hq.
  assert (¬ Spec.valid_percentile percentile) as Hinvalid.
  { intros [H0 H100]. destruct Hq as [Hq | Hq].
    - by apply (Qle_not_lt _ _ H0).
    - by apply (Qle_not_lt _ _ H100). }
  unfold build_calendar_day_percentile. split.
  - intros (r & Hr & (Hy & [v Hv] & Hdoy)).
    apply build_loop_raises.
    + intros d Hd. apply elem_of_range in Hd.
      rewrite day_threshold_invalid by (done || lia).
      case_decide; [by left | right; by eexists].
    + exists (Daily.day_of_year r). split; [apply elem_of_range; lia |].
      rewrite day_threshold_invalid by done.
      rewrite decide_True; [done |]. right. apply len_pos_nonempty.
      intros Hnil.
      pose proof (pool_elem df column baseline_start baseline_end
                    (λ a, a = Daily.day_of_year r) r v Hr Hy eq_refl Hv) as Hin.
      rewrite Hnil in Hin. by apply elem_of_nil in Hin.
  - intros Hnone. eexists. split.
    + apply (build_loop_ok _ _ _ (λ _, Float.nan)).
      intros d Hd. apply elem_of_range in Hd.
      rewrite day_threshold_invalid by (done || lia).
      rewrite decide_False; [done |]. intros [Hw | He].
      * assert (Spec.pool df column baseline_start baseline_end (Spec.in_window d) ≠ [])
          as Hne by (apply len_pos_nonempty; lia).
        destruct (Spec.pool df column baseline_start baseline_end (Spec.in_window d))
          as [| v vs] eqn:Hpool; [done |].
        assert (v ∈ Spec.pool df column baseline_start baseline_end (Spec.in_window d))
          as Hin by (rewrite Hpool; by left).
        unfold Spec.pool in Hin. apply list_elem_of_omap in Hin as (r & Hr & Hv).
        destruct (decide _) as [[Hy [Hdoy _]] | _]; [| done].
        apply (Hnone r Hr). split; [done |]. split; [by eexists | done].
      * apply len_pos_nonempty in He.
        destruct (Spec.pool df column baseline_start baseline_end (λ a, a = d))
          as [| v vs] eqn:Hpool; [done |].
        assert (v ∈ Spec.pool df column baseline_start baseline_end (λ a, a = d))
          as Hin by (rewrite Hpool; by left).
        unfold Spec.pool in Hin. apply list_elem_of_omap in Hin as (r & Hr & Hv).
        destruct (decide _) as [[Hy Hdoy] | _]; [| done].
        apply (Hnone r Hr). split; [done |]. split; [by eexists | lia].
    + intros d Hd. rewrite filled_lookup.
      rewrite decide_True; [done | apply elem_of_range; lia].
Qed.

Lemma build_invalid_percentile_witness :
  ((101 < 0)%Q ∨ (100 < 101)%Q)
  ∧ build_calendar_day_percentile mild_frame temp_max BASELINE_START BASELINE_END 101
    = Raise ValueError.
Proof.
  assert ((101 < 0)%Q ∨ (100 < 101)%Q) as Hq by (right; reflexivity).
  split; [exact Hq |].
  apply (build_invalid_percentile mild_frame temp_max BASELINE_START BASELINE_END
           101 Hq).
  exists (obs 1961 10 25). split; [apply elem_of_cons; by left |].
  unfold baseline_observation, BASELINE_START, BASELINE_END. simpl.
  split; [lia | split; [by eexists | lia]].
Defined.

(** X8.  With a valid percentile, a threshold that
    [build_calendar_day_percentile] defines lies between the smallest and the
    largest baseline value: if every value of the column in the baseline
    years is within [lo, hi], so is the threshold of each day. *)
Theorem threshold_within_baseline_values (df : DataFrame) (column : Column)
    (baseline_start baseline_end : Z) (percentile : Q) (d : Z) (lo hi : Q) :
  1 <= d <= 366 ->
  (0 <= percentile)%Q ∧ (percentile <= 100)%Q ->
  (∀ r v, r ∈ df -> baseline_start <= Daily.year r <= baseline_end ->
          col column r = Some v -> (lo <= v)%Q ∧ (v <= hi)%Q) ->
  ∃ p_by_doy,
    build_calendar_day_percentile df column baseline_start baseline_end percentile
    = Ok p_by_doy
    ∧ ∀ t, p_by_doy !! d = Some (Some t) -> (lo <= t)%Q ∧ (t <= hi)%Q.
Proof.
  intros Hd Hq Hbound.
  destruct (build_calendar_day_percentile_ok df column baseline_start baseline_end
              percentile Hq) as (p & Hp & Hlook).
  exists p. split; [exact Hp |]. intros t Ht.
  rewrite Hlook, decide_True in Ht by done. injection Ht as Ht.
  unfold Spec.calendar_threshold in Ht.
  assert (∀ (P : Z -> Prop) `{!∀ a, Decision (P a)},
            Spec.pool df column baseline_start baseline_end P ≠ [] ->
            linear_percentile (Spec.pool df column baseline_start baseline_end P)
              percentile = Some t ->
            (lo <= t)%Q ∧ (t <= hi)%Q) as Hpool.
  { intros P HP Hne Hval.
    destruct (linear_percentile_bounds _ percentile lo hi Hne Hq) as (t' & Ht' & Hb).
    - by apply pool_Forall.
    - rewrite Hval in Ht'. by injection Ht' as <-. }
  destruct (decide (10 <= len (Spec.pool df column baseline_start baseline_end
                                 (Spec.in_window d)))) as [Hw | Hw].
  - assert (0 < len (Spec.pool df column baseline_start baseline_end
                          (Spec.in_window d))) as Hpos by lia.
    apply (Hpool _ _ (proj1 (len_pos_nonempty _) Hpos) Ht).
  - destruct (decide (0 < len (Spec.pool df column baseline_start baseline_end
                                 (λ a, a = d)))) as [He | He]; [| done].
    apply (Hpool _ _ (proj1 (len_pos_nonempty _) He) Ht).
Qed.

Lemma threshold_within_baseline_values_witness :
  ∃ p_by_doy,
    build_calendar_day_percentile mild_frame temp_max BASELINE_START BASELINE_END 90
    = Ok p_by_doy
    ∧ ∀ t, p_by_doy !! 10 = Some (Some t) -> (25 <= t)%Q ∧ (t <= 27)%Q.
Proof.
  apply (threshold_within_baseline_values mild_frame temp_max
           BASELINE_START BASELINE_END 90 10 25 27).
  - lia.
  - split; discriminate.
  - intros r v Hr Hyear Hv. unfold mild_frame in Hr.
    repeat (apply elem_of_cons in Hr as [-> | Hr]);
      try (by apply elem_of_nil in Hr);
      try (simpl in Hv; injection Hv as <-; split; discriminate).
    unfold BASELINE_END in Hyear. simpl in Hyear. lia.
Defined.

Section EmptyBaseline.

Lemma day_threshold_no_sample df column bs be q d :
  (∀ r, r ∈ df -> bs <= Daily.year r <= be -> col column r = None) ->
  day_threshold (baseline_rows df column bs be) column q d = Ok Float.nan.
Proof.
  intros Hnone.
  assert (baseline_rows df column bs be = []) as ->.
  { unfold baseline_rows. induction df as [| r df IH]; [done |].
    rewrite filter_cons.
    assert (∀ r', r' ∈ df -> bs <= Daily.year r' <= be -> col column r' = None)
      as Hrest by (intros r' Hr'; apply Hnone; by right).
    destruct (decide (bs <= Daily.year r ∧ Daily.year r <= be)) as [Hy | Hy];
      [| by apply IH].
    rewrite filter_cons, (Hnone r ltac:(by left) Hy). simpl. by apply IH. }
  reflexivity.
Qed.

Lemma never_exceeds column (p90 : gmap Z float) (year_df : DataFrame) :
  (∀ d, Series_get p90 d = Float.nan) ->
  exceeds column p90 <$> year_df = replicate (length year_df) false.
Proof.
  intros Hnan. induction year_df as [| r year_df IH]; [done |].
  cbn [fmap list_fmap length replicate]. rewrite IH. f_equal.
  unfold exceeds. rewrite Hnan. unfold Float.gt. by destruct (col column r).
Qed.

Lemma count_true_replicate_false n : count_true (replicate n false) = 0.
Proof.
  unfold count_true, len. induction n as [| n IH]; [done |].
  simpl replicate. by rewrite filter_cons_False.
Qed.

Lemma spells_none n m : _count_days_in_spells (replicate n false) m = 0.
Proof.
  rewrite count_days_in_spells_spec. unfold RunEncoder.days_in_qualifying_runs.
  by rewrite true_runs_all_false.
Qed.

Lemma rate_zero (total : Z) :
  Float.round (Some (inject_Z 0 / inject_Z total * 100)%Q) 2 = Some 0%Q.
Proof. unfold Float.round. f_equal. Qed.

End EmptyBaseline.

(** X9.  When no row of the baseline years has a maximum temperature, every
    threshold is NaN, whatever the percentile, and then no day of any year is
    a warm day: [calculate_wsdi] is 0 and [calculate_tx90p] is 0 for every
    non-empty year. *)
Theorem no_baseline_no_warm_day (df : DataFrame)
    (baseline_start baseline_end : Z) (percentile : Q) :
  (∀ r, r ∈ df -> baseline_start <= Daily.year r <= baseline_end ->
        Daily.temp_max r = None) ->
  ∃ p90_tmax,
    build_calendar_day_percentile df temp_max baseline_start baseline_end percentile
    = Ok p90_tmax
    ∧ (∀ d, Series_get p90_tmax d = Float.nan)
    ∧ ∀ (year_df : DataFrame) (min_duration : Z),
        calculate_wsdi year_df p90_tmax min_duration = 0
        ∧ (year_df ≠ [] -> calculate_tx90p year_df p90_tmax = Some 0%Q).
Proof.
  intros Hnone. eexists. split; [| split].
  - unfold build_calendar_day_percentile.
    apply (build_loop_ok _ _ _ (λ _, Float.nan)).
    intros d _. by apply day_threshold_no_sample.
  - intros d. unfold Series_get. rewrite filled_lookup, lookup_empty.
    by case_decide.
  - intros year_df min_duration.
    assert (∀ d, Series_get (filled (λ _, Float.nan) ∅ (range 1 367)) d = Float.nan)
      as Hnan.
    { intros d. unfold Series_get. rewrite filled_lookup, lookup_empty. by case_decide. }
    split.
    + unfold calculate_wsdi. rewrite never_exceeds by done. apply spells_none.
    + intros Hne. unfold calculate_tx90p.
      rewrite never_exceeds by done. rewrite count_true_replicate_false.
      destruct (Z.eqb_spec (len year_df) 0) as [H0 | H0].
      * destruct year_df; [done | unfold len in H0; simpl in H0; lia].
      * apply rate_zero.
Qed.

Lemma no_baseline_no_warm_day_witness :
  ∃ p90_tmax,
    build_calendar_day_percentile missing_year temp_max 2001 2001 90 = Ok p90_tmax
    ∧ (∀ d, Series_get p90_tmax d = Float.nan)
    ∧ ∀ (year_df : DataFrame) (min_duration : Z),
        calculate_wsdi year_df p90_tmax min_duration = 0
        ∧ (year_df ≠ [] -> calculate_tx90p year_df p90_tmax = Some 0%Q).
Proof.
  apply (no_baseline_no_warm_day missing_year 2001 2001 90).
  intros r Hr _. unfold missing_year in Hr.
  apply elem_of_cons in Hr as [-> | Hr]; [done | by apply elem_of_nil in Hr].
Defined.

Section Window.

Lemma in_window_sym d a :
  1 <= d <= 366 -> 1 <= a <= 366 -> Spec.in_window d a ↔ Spec.in_window a d.
Proof. unfold Spec.in_window, Spec.circular_distance. lia. Qed.

Lemma doys_in_window_values d :
  1 <= d <= 366 ->
  doys_in_window d 2
  = [ (if d <? 3 then d + 364 else d - 2);
      (if d <? 2 then d + 365 else d - 1);
      d;
      (if d <? 366 then d + 1 else d - 365);
      (if d <? 365 then d + 2 else d - 364) ].
Proof.
  intros Hd. unfold doys_in_window.
  change (range 0 (2 * 2 + 1)) with [0; 1; 2; 3; 4]. cbn [fmap list_fmap].
  repeat (apply (f_equal2 cons);
          [rewrite mod366 by lia;
           repeat match goal with |- context [?x <? ?y] => destruct (Z.ltb_spec x y) end;
           lia |]).
  reflexivity.
Qed.

End Window.

(** X10.  The window of a calendar day, as [build_calendar_day_percentile]
    computes it, holds five distinct days of 1 to 366, the day itself among
    them, and wraps around the end of the year symmetrically: [a] is in the
    window of [d] exactly when [d] is in the window of [a]. *)
Theorem doys_in_window_shape (d : Z) :
  1 <= d <= 366 ->
  length (doys_in_window d 2) = 5%nat
  ∧ NoDup (doys_in_window d 2)
  ∧ d ∈ doys_in_window d 2
  ∧ (∀ a, a ∈ doys_in_window d 2 -> 1 <= a <= 366)
  ∧ (∀ a, 1 <= a <= 366 -> a ∈ doys_in_window d 2 ↔ d ∈ doys_in_window a 2).
Proof.
  intros Hd. split; [| split; [| split; [| split]]].
  - by rewrite doys_in_window_values.
  - rewrite doys_in_window_values by done.
    repeat (apply NoDup_cons; split;
            [rewrite ?elem_of_cons, elem_of_nil;
             repeat match goal with |- context [?x <? ?y] => destruct (Z.ltb_spec x y) end;
             lia |]).
    apply NoDup_nil_2.
  - apply doys_in_window_spec; [done |].
    unfold Spec.in_window, Spec.circular_distance. lia.
  - intros a Ha. apply doys_in_window_spec in Ha; [| done]. by destruct Ha.
  - intros a Ha. rewrite !doys_in_window_spec by done. by apply in_window_sym.
Qed.

Lemma doys_in_window_shape_witness :
  1 <= 1 <= 366
  ∧ length (doys_in_window 1 2) = 5%nat
  ∧ NoDup (doys_in_window 1 2)
  ∧ 1 ∈ doys_in_window 1 2
  ∧ (∀ a, a ∈ doys_in_window 1 2 -> 1 <= a <= 366)
  ∧ (∀ a, 1 <= a <= 366 -> a ∈ doys_in_window 1 2 ↔ 1 ∈ doys_in_window a 2).
Proof. split; [lia |]. apply (doys_in_window_shape 1). lia. Defined.

Section ExceedanceRange.

Lemma ratio_bounds (a t : Z) :
  0 <= a <= t -> 0 < t ->
  (0 <= inject_Z a / inject_Z t * 100)%Q ∧ (inject_Z a / inject_Z t * 100 <= 100)%Q.
Proof.
  intros [Ha0 Hat] Ht.
  rewrite Zle_Qle in Ha0, Hat. rewrite Zlt_Qlt in Ht.
  change (inject_Z 0) with 0%Q in *.
  assert (0 <= inject_Z a / inject_Z t)%Q as H0.
  { apply Qle_shift_div_l; [done | lra]. }
  assert (inject_Z a / inject_Z t <= 1)%Q as H1.
  { apply Qle_shift_div_r; [done | lra]. }
  split; lra.
Qed.

Lemma count_true_bounds flags : 0 <= count_true flags <= len flags.
Proof.
  unfold count_true, len. pose proof (length_filter (λ b, b = true) flags). lia.
Qed.

Lemma count_true_all n : count_true (replicate n true) = Z.of_nat n.
Proof.
  unfold count_true, len. induction n as [| n IH]; [done |].
  simpl replicate. rewrite filter_cons_True by done. simpl length. lia.
Qed.

(** The rate computed from the exceedance flags of a year. *)
Lemma rate_range column p90 (year_df : DataFrame) t :
  (let total := len year_df in
   if total =? 0 then Float.nan
   else
     let above := count_true (exceeds column p90 <$> year_df) in
     Float.round (Some (inject_Z above / inject_Z total * 100)%Q) 2) = Some t ->
  (0 <= t)%Q ∧ (t <= 100)%Q.
Proof.
  cbv zeta. destruct (Z.eqb_spec (len year_df) 0) as [H0 | H0]; [done |].
  intros Ht. injection Ht as <-.
  pose proof (count_true_bounds (exceeds column p90 <$> year_df)) as Hc.
  rewrite len_fmap in Hc.
  destruct (ratio_bounds (count_true (exceeds column p90 <$> year_df)) (len year_df))
    as [Hlo Hhi]; [done | unfold len in *; lia |].
  by apply round_percentage.
Qed.

Lemma rate_full column p90 (year_df : DataFrame) :
  year_df ≠ [] ->
  Forall (λ r, exceeds column p90 r = true) year_df ->
  (let total := len year_df in
   if total =? 0 then Float.nan
   else
     let above := count_true (exceeds column p90 <$> year_df) in
     Float.round (Some (inject_Z above / inject_Z total * 100)%Q) 2) = Some 100%Q.
Proof.
  intros Hne Hall. cbv zeta.
  destruct (Z.eqb_spec (len year_df) 0) as [H0 | H0].
  { destruct year_df; [done | unfold len in H0; simpl in H0; lia]. }
  assert (exceeds column p90 <$> year_df = replicate (length year_df) true) as ->.
  { clear -Hall. induction Hall as [| r l Hr _ IH]; [done |].
    cbn [fmap list_fmap length replicate]. by rewrite Hr, IH. }
  rewrite count_true_all. fold (len year_df).
  unfold Float.round. f_equal.
  rewrite (round_Q_comp _ 100%Q); [reflexivity |].
  assert (¬ inject_Z (len year_df) == 0)%Q as Hnz.
  { change 0%Q with (inject_Z 0). rewrite inject_Z_injective. done. }
  field. exact Hnz.
Qed.

End ExceedanceRange.

(** X11.  [calculate_tx90p] and [calculate_tn90p], when defined, are
    percentages between 0 and 100; they are 100 for a non-empty year whose
    every day exceeds its threshold. *)
Theorem exceedance_rate_range (year_df : DataFrame) (p90_tmax p90_tmin : gmap Z float) :
  (∀ t, calculate_tx90p year_df p90_tmax = Some t -> (0 <= t)%Q ∧ (t <= 100)%Q)
  ∧ (∀ t, calculate_tn90p year_df p90_tmin = Some t -> (0 <= t)%Q ∧ (t <= 100)%Q)
  ∧ (year_df ≠ [] ->
     Forall (λ day, Spec.strictly_exceeds temp_max p90_tmax day = true) year_df ->
     calculate_tx90p year_df p90_tmax = Some 100%Q)
  ∧ (year_df ≠ [] ->
     Forall (λ day, Spec.strictly_exceeds temp_min p90_tmin day = true) year_df ->
     calculate_tn90p year_df p90_tmin = Some 100%Q).
Proof.
  split; [| split; [| split]].
  - intros t. apply rate_range.
  - intros t. apply rate_range.
  - intros Hne Hall. apply rate_full; [done |].
    eapply Forall_impl; [exact Hall |]. intros r Hr. by rewrite exceeds_spec.
  - intros Hne Hall. apply rate_full; [done |].
    eapply Forall_impl; [exact Hall |]. intros r Hr. by rewrite exceeds_spec.
Qed.

Section TrendMore.

Lemma dropna_Some (xs : list Q) : Float.dropna (Some <$> xs) = xs.
Proof.
  unfold Float.dropna. induction xs as [| x xs IH]; [done |].
  cbn [fmap list_fmap omap list_omap]. simpl. by rewrite IH.
Qed.


Lemma direction_sufficient kendalltau series :
  3 <= len (Float.dropna series) ->
  Trend.trend_direction (mann_kendall_trend kendalltau series) ≠ "insufficient_data".
Proof.
  intros Hn. rewrite direction_of_tau by done.
  destruct (Float.gt _ _); [done |]. destruct (Float.lt _ _); done.
Qed.

End TrendMore.

(** X12.  [mann_kendall_trend] depends on the non-missing points only: it
    returns the same result on the series with its NaN removed.  It reports
    "insufficient_data" exactly when fewer than 3 points are left, and
    "no_trend" with a NaN coefficient when [kendalltau] returns NaN on 3
    points or more. *)
Theorem mann_kendall_ignores_missing
    (kendalltau : list Z -> list Q -> float * float) (series : list float) :
  mann_kendall_trend kendalltau series
  = mann_kendall_trend kendalltau (Some <$> Float.dropna series)
  ∧ (Trend.trend_direction (mann_kendall_trend kendalltau series) = "insufficient_data"
     ↔ len (Float.dropna series) < 3)
  ∧ (3 <= len (Float.dropna series) ->
     Spec.kendall_tau kendalltau series = Float.nan ->
     Trend.trend_direction (mann_kendall_trend kendalltau series) = "no_trend"
     ∧ Trend.tau (mann_kendall_trend kendalltau series) = Float.nan).
Proof.
  split; [| split].
  - unfold mann_kendall_trend. by rewrite dropna_Some.
  - split.
    + intros Hdir. destruct (Z.lt_ge_cases (len (Float.dropna series)) 3) as [H | H];
        [done |].
      by apply (direction_sufficient kendalltau) in H.
    + intros Hn. unfold mann_kendall_trend.
      destruct (Z.ltb_spec (len (Float.dropna series)) 3); [done | lia].
  - intros Hn Htau. split.
    + rewrite direction_of_tau by done. by rewrite Htau.
    + unfold mann_kendall_trend, Spec.kendall_tau in *.
      destruct (Z.ltb_spec (len (Float.dropna series)) 3); [done |].
      destruct (kendalltau _ _) as [tau p]. simpl in *. by rewrite Htau.
Qed.


Section AnnualRecord.
Import RunEncoder.

Lemma count_true_mono {A} (f g : A -> bool) (l : list A) :
  (∀ x, f x = true -> g x = true) ->
  count_true (f <$> l) <= count_true (g <$> l).
Proof.
  intros Hfg. unfold count_true, len.
  induction l as [| x l IH]; [done |].
  cbn [fmap list_fmap]. rewrite !filter_cons.
  specialize (Hfg x). destruct (f x), (g x); simpl; try lia.
Qed.

Lemma count_true_len {A} (f : A -> bool) (l : list A) :
  0 <= count_true (f <$> l) <= len l.
Proof. pose proof (count_true_bounds (f <$> l)) as H. by rewrite len_fmap in H. Qed.

Lemma ge_threshold_mono (x : float) (lo hi : Q) :
  (lo <= hi)%Q -> Float.ge x (Some hi) = true -> Float.ge x (Some lo) = true.
Proof.
  intros Hle. destruct x as [v |]; [| done]. unfold Float.ge.
  rewrite !Qle_bool_iff. intros H. by apply (Qle_trans _ hi).
Qed.

(** The record of a year, field by field. *)
Lemma annual_record_fields year ydf p90_tmax p90_tmin p95 :
  let record := annual_record year ydf p90_tmax p90_tmin p95 in
  Annual.year record = year
  ∧ Annual.su25 record
    = count_true ((λ r, Float.ge (Daily.temp_max r) (Some SU25_THRESHOLD)) <$> ydf)
  ∧ Annual.su30 record
    = count_true ((λ r, Float.ge (Daily.temp_max r) (Some SU30_THRESHOLD)) <$> ydf)
  ∧ Annual.tr20 record
    = count_true ((λ r, Float.ge (Daily.temp_min r) (Some TR20_THRESHOLD)) <$> ydf)
  ∧ Annual.precip_days record
    = count_true ((λ r, wet_flag (Daily.precipitation r)) <$> ydf)
  ∧ Annual.p95_days record
    = count_true ((λ r, Float.gt (Daily.temp_max r) p95) <$> ydf)
  ∧ Annual.wsdi_days record = calculate_wsdi ydf p90_tmax WSDI_MIN_DURATION
  ∧ Annual.tx90p record = calculate_tx90p ydf p90_tmax
  ∧ Annual.tn90p record = calculate_tn90p ydf p90_tmin
  ∧ Annual.cdd record = calculate_cdd (Daily.precipitation <$> ydf)
  ∧ Annual.cwd record = calculate_cwd (Daily.precipitation <$> ydf).
Proof.
  unfold annual_record. by destruct (hot_season ydf) as [[first last] length].
Qed.

Lemma su30_hot_days (ydf : DataFrame) :
  count_true ((λ r, Float.ge (Daily.temp_max r) (Some SU30_THRESHOLD)) <$> ydf)
  = len (filter Spec.hot_day ydf).
Proof. rewrite count_true_fmap. by rewrite hot_rows. Qed.

End AnnualRecord.

(** X14.  In a record of [main]'s yearly loop the counts are consistent:
    [su30 <= su25], the wet spell is no longer than the number of wet days,
    dry spell and wet days together fit into the year, [wsdi_days] is 0 or
    at least 6, the first and the last hot day are missing exactly when
    [su30] is 0, and the hot season length is not negative. *)
Theorem annual_record_invariants (year : Z) (ydf : DataFrame)
    (p90_tmax p90_tmin : gmap Z float) (p95_tmax_scalar : float) :
  let record := annual_record year ydf p90_tmax p90_tmin p95_tmax_scalar in
  (0 <= Annual.su30 record <= Annual.su25 record ∧ Annual.su25 record <= len ydf)
  ∧ 0 <= Annual.tr20 record <= len ydf
  ∧ 0 <= Annual.p95_days record <= len ydf
  ∧ (0 <= Annual.cwd record <= Annual.precip_days record
     ∧ Annual.precip_days record <= len ydf)
  ∧ (0 <= Annual.cdd record ∧ Annual.cdd record + Annual.precip_days record <= len ydf)
  ∧ (0 <= Annual.wsdi_days record <= len ydf
     ∧ (Annual.wsdi_days record = 0 ∨ 6 <= Annual.wsdi_days record))
  ∧ (Annual.first_hot_day record = None ↔ Annual.su30 record = 0)
  ∧ (Annual.last_hot_day record = None ↔ Annual.su30 record = 0)
  ∧ 0 <= Annual.hot_season_length record.
Proof.
  intros record.
  destruct (annual_record_fields year ydf p90_tmax p90_tmin p95_tmax_scalar)
    as (_ & H25 & H30 & H20 & Hpd & H95 & Hwsdi & _ & _ & Hcdd & Hcwd).
  fold record in H25, H30, H20, Hpd, H95, Hwsdi, Hcdd, Hcwd.
  pose proof (annual_record_hot_season year ydf p90_tmax p90_tmin p95_tmax_scalar)
    as Hhot.
  cbv zeta in Hhot. fold record in Hhot.
  rewrite H25, H30, H20, Hpd, H95, Hwsdi, Hcdd, Hcwd.
  split; [| split; [| split; [| split; [| split; [| split; [| split; [| split]]]]]]].
  - pose proof (count_true_len (λ r, Float.ge (Daily.temp_max r) (Some SU30_THRESHOLD)) ydf).
    pose proof (count_true_len (λ r, Float.ge (Daily.temp_max r) (Some SU25_THRESHOLD)) ydf).
    pose proof (count_true_mono
                  (λ r, Float.ge (Daily.temp_max r) (Some SU30_THRESHOLD))
                  (λ r, Float.ge (Daily.temp_max r) (Some SU25_THRESHOLD)) ydf) as Hmono.
    split; [split; [lia |] | lia]. apply Hmono.
    intros r. by apply ge_threshold_mono.
  - apply count_true_len.
  - apply count_true_len.
  - pose proof (count_true_len (λ r, wet_flag (Daily.precipitation r)) ydf) as Hlen.
    unfold calculate_cwd. rewrite <- list_fmap_compose.
    pose proof (max_consecutive_bounds (wet_flag ∘ Daily.precipitation <$> ydf)) as Hb.
    pose proof (max_consecutive_le_count (wet_flag ∘ Daily.precipitation <$> ydf)) as Hc.
    unfold RunEncoder.count_of_true in Hc. unfold count_true in *.
    unfold compose in *. lia.
  - unfold calculate_cdd.
    pose proof (max_consecutive_bounds (dry_flag <$> (Daily.precipitation <$> ydf))) as Hb.
    pose proof (max_consecutive_le_count (dry_flag <$> (Daily.precipitation <$> ydf)))
      as Hc.
    pose proof (dry_wet_disjoint (Daily.precipitation <$> ydf)) as Hdis.
    rewrite len_fmap in Hdis. rewrite <- (list_fmap_compose _ wet_flag) in Hdis.
    unfold RunEncoder.count_of_true, count_true, compose in *. lia.
  - unfold calculate_wsdi, WSDI_MIN_DURATION.
    rewrite count_days_in_spells_spec. unfold RunEncoder.days_in_qualifying_runs.
    set (flags := exceeds temp_max p90_tmax <$> ydf).
    pose proof (qualifying_sum_bounds _ 6 (true_runs_pos flags)) as [Hb Hz].
    pose proof (true_runs_sum flags). pose proof (count_of_true_le flags) as Hl.
    assert (len flags = len ydf) as Hlen by apply len_fmap.
    split; [lia | exact Hz].
  - rewrite su30_hot_days. unfold hot_season in Hhot. rewrite hot_rows in Hhot.
    destruct (filter Spec.hot_day ydf) as [| r rest]; simpl in Hhot.
    + injection Hhot as <- _ _. done.
    + injection Hhot as <- _ _. unfold len. simpl. split; [done | lia].
  - rewrite su30_hot_days. unfold hot_season in Hhot. rewrite hot_rows in Hhot.
    destruct (filter Spec.hot_day ydf) as [| r rest]; simpl in Hhot.
    + injection Hhot as _ <- _. done.
    + injection Hhot as _ <- _. unfold len. simpl. split; [done | lia].
  - unfold hot_season in Hhot.
    destruct (Daily.day_of_year <$> _) as [| d rest].
    + by injection Hhot as _ _ <-.
    + injection Hhot as _ _ <-.
      destruct (Zlist_min_spec d rest) as [_ Hmin].
      destruct (Zlist_max_spec d rest) as [Hin _].
      specialize (Hmin _ Hin). lia.
Qed.

Section HotSeasonSpan.

Lemma NoDup_within (l : list Z) (lo hi : Z) :
  NoDup l -> (∀ x, x ∈ l -> lo <= x <= hi) -> l ≠ [] -> len l <= hi - lo + 1.
Proof.
  intros Hnd Hin Hne.
  assert (lo <= hi) as Hle.
  { destruct l as [| x l]; [done |]. specialize (Hin x ltac:(by left)). lia. }
  assert (l ⊆+ seqZ lo (hi - lo + 1)) as Hsub.
  { apply NoDup_submseteq; [done |]. intros x Hx. apply elem_of_seqZ.
    specialize (Hin x Hx). lia. }
  apply submseteq_length in Hsub. rewrite length_seqZ in Hsub. unfold len. lia.
Qed.

End HotSeasonSpan.

(** X15.  When the rows of a year have distinct days of year, the hot days
    fit between the first and the last hot day: [su30] is at most
    [hot_season_length + 1]. *)
Theorem hot_season_spans_hot_days (year : Z) (ydf : DataFrame)
    (p90_tmax p90_tmin : gmap Z float) (p95_tmax_scalar : float) :
  NoDup (Daily.day_of_year <$> ydf) ->
  let record := annual_record year ydf p90_tmax p90_tmin p95_tmax_scalar in
  Annual.su30 record <= Annual.hot_season_length record + 1.
Proof.
  intros Hnd record.
  destruct (annual_record_fields year ydf p90_tmax p90_tmin p95_tmax_scalar)
    as (_ & _ & H30 & _).
  fold record in H30. rewrite H30, su30_hot_days.
  pose proof (annual_record_hot_season year ydf p90_tmax p90_tmin p95_tmax_scalar)
    as Hhot.
  cbv zeta in Hhot. fold record in Hhot.
  unfold hot_season in Hhot. rewrite hot_rows in Hhot.
  assert (NoDup (Daily.day_of_year <$> filter Spec.hot_day ydf)) as Hnd'.
  { eapply sublist_NoDup; [exact Hnd |]. apply fmap_sublist, sublist_filter. }
  assert (len (filter Spec.hot_day ydf)
          = len (Daily.day_of_year <$> filter Spec.hot_day ydf)) as ->
    by (by rewrite len_fmap).
  destruct (Daily.day_of_year <$> filter Spec.hot_day ydf) as [| d rest] eqn:Hd.
  - injection Hhot as _ _ <-. unfold len. simpl. lia.
  - injection Hhot as _ _ <-.
    destruct (Zlist_min_spec d rest) as [_ Hmin].
    destruct (Zlist_max_spec d rest) as [_ Hmax].
    apply NoDup_within; [done | | done].
    intros x Hx. split; [by apply Hmin | by apply Hmax].
Qed.

Lemma hot_season_spans_hot_days_witness :
  NoDup (Daily.day_of_year <$> one_hot_day_year)
  ∧ Annual.su30 (annual_record 2001 one_hot_day_year flat_p90 flat_p90 (Some 29%Q))
    <= Annual.hot_season_length
         (annual_record 2001 one_hot_day_year flat_p90 flat_p90 (Some 29%Q)) + 1.
Proof.
  assert (NoDup (Daily.day_of_year <$> one_hot_day_year)) as Hdays.
  { apply (bool_decide_unpack _). by vm_compute. }
  split; [exact Hdays |].
  apply (hot_season_spans_hot_days 2001 one_hot_day_year flat_p90 flat_p90
           (Some 29%Q) Hdays).
Defined.

Section AnnualRecords.

Lemma annual_records_years df p90_tmax p90_tmin p95 :
  Annual.year <$> annual_records df p90_tmax p90_tmin p95
  = sorted_unique (Daily.year <$> df).
Proof.
  unfold annual_records. rewrite <- list_fmap_compose.
  rewrite <- (list_fmap_id (sorted_unique _)) at 2.
  apply list_fmap_ext. intros _ y _. simpl.
  by destruct (annual_record_fields y (filter (λ r, Daily.year r = y) df)
                 p90_tmax p90_tmin p95) as [-> _].
Qed.

Lemma rate_defined column p90 (year_df : DataFrame) :
  year_df ≠ [] ->
  is_Some (let total := len year_df in
           if total =? 0 then Float.nan
           else
             let above := count_true (exceeds column p90 <$> year_df) in
             Float.round (Some (inject_Z above / inject_Z total * 100)%Q) 2).
Proof.
  intros Hne. cbv zeta. destruct (Z.eqb_spec (len year_df) 0) as [H0 | H0].
  - destruct year_df; [done | unfold len in H0; simpl in H0; lia].
  - by eexists.
Qed.

End AnnualRecords.

(** X16.  [main]'s yearly loop yields one record per year present in the
    daily frame, in increasing order of year and without repetition; each
    record is computed from the rows of its year, of which there is at least
    one, so that [tx90p] and [tn90p] are defined. *)
Theorem annual_records_by_year (df : DataFrame) (p90_tmax p90_tmin : gmap Z float)
    (p95_tmax_scalar : float) :
  let records := annual_records df p90_tmax p90_tmin p95_tmax_scalar in
  NoDup (Annual.year <$> records)
  ∧ Sorted Z.le (Annual.year <$> records)
  ∧ (∀ y, y ∈ Annual.year <$> records ↔ ∃ r, r ∈ df ∧ Daily.year r = y)
  ∧ (∀ record, record ∈ records ->
       let ydf := filter (λ r, Daily.year r = Annual.year record) df in
       ydf ≠ []
       ∧ record = annual_record (Annual.year record) ydf p90_tmax p90_tmin
                    p95_tmax_scalar
       ∧ is_Some (Annual.tx90p record)
       ∧ is_Some (Annual.tn90p record)).
Proof.
  intros records. unfold records. rewrite annual_records_years.
  split; [apply NoDup_sorted_unique | split; [apply Sorted_sorted_unique | split]].
  - intros y. rewrite elem_of_sorted_unique, list_elem_of_fmap.
    split; intros (r & H1 & H2); exists r; by split.
  - intros record Hrec. unfold annual_records in Hrec.
    apply list_elem_of_fmap in Hrec as (y & -> & Hy).
    apply elem_of_sorted_unique, list_elem_of_fmap in Hy as (r & -> & Hr).
    destruct (annual_record_fields (Daily.year r)
                (filter (λ r', Daily.year r' = Daily.year r) df)
                p90_tmax p90_tmin p95_tmax_scalar)
      as (Hyear & _ & _ & _ & _ & _ & _ & Htx & Htn & _).
    cbv zeta. rewrite Hyear.
    assert (filter (λ r', Daily.year r' = Daily.year r) df ≠ []) as Hne.
    { intros Hnil.
      assert (r ∈ filter (λ r', Daily.year r' = Daily.year r) df) as Hin
        by (by apply list_elem_of_filter).
      rewrite Hnil in Hin. by apply elem_of_nil in Hin. }
    split; [done | split; [done | split]].
    + rewrite Htx. by apply rate_defined.
    + rewrite Htn. by apply rate_defined.
Qed.

(** X17.  The decades of the decadal table are multiples of 10, every
    annual row belongs to exactly one row of the table (the decade of its
    year), and the table has no more rows than the annual frame. *)
Theorem decadal_rows_partition_years (annual : list AnnualRow) :
  (∀ drow, drow ∈ decadal_table annual -> decade drow `mod` 10 = 0)
  ∧ (∀ row, row ∈ annual ->
       ∃ drow, drow ∈ decadal_table annual
               ∧ decade drow <= Annual.year (metrics row) <= decade drow + 9
               ∧ ∀ other, other ∈ decadal_table annual ->
                   decade other <= Annual.year (metrics row) <= decade other + 9 ->
                   other = drow)
  ∧ (length (decadal_table annual) <= length annual)%nat.
Proof.
  assert (∀ drow, drow ∈ decadal_table annual -> decade drow `mod` 10 = 0) as Hmod.
  { intros drow Hd. unfold decadal_table in Hd.
    apply list_elem_of_fmap in Hd as (d & -> & Hd). simpl.
    apply elem_of_sorted_unique, list_elem_of_fmap in Hd as (row & -> & _).
    unfold decade_of. apply Z.mod_mul. lia. }
  split; [exact Hmod | split].
  - intros row Hrow.
    assert (decade_of row ∈ sorted_unique (decade_of <$> annual)) as Hd.
    { apply elem_of_sorted_unique, list_elem_of_fmap. by exists row. }
    unfold decadal_table at 1. eexists. split; [| split].
    + apply list_elem_of_fmap. eexists. split; [reflexivity | exact Hd].
    + simpl. unfold decade_of.
      pose proof (Z.div_mod (Annual.year (metrics row)) 10 ltac:(lia)).
      pose proof (Z.mod_pos_bound (Annual.year (metrics row)) 10 ltac:(lia)). lia.
    + intros other Hother Hrange. pose proof (Hmod other Hother) as Hm.
      unfold decadal_table in Hother.
      apply list_elem_of_fmap in Hother as (d & -> & _). simpl in *.
      assert (d = decade_of row) as ->; [| done].
      unfold decade_of.
      pose proof (Z.div_mod (Annual.year (metrics row)) 10 ltac:(lia)).
      pose proof (Z.mod_pos_bound (Annual.year (metrics row)) 10 ltac:(lia)).
      pose proof (Z.div_mod d 10 ltac:(lia)). lia.
  - unfold decadal_table, sorted_unique. rewrite length_fmap.
    rewrite merge_sort_Permutation.
    pose proof (submseteq_length (remove_dups (decade_of <$> annual))
                  (decade_of <$> annual)) as Hlen.
    rewrite length_fmap in Hlen. apply Hlen.
    apply NoDup_submseteq; [apply NoDup_remove_dups |].
    intros x. by rewrite elem_of_remove_dups.
Qed.

(** ** Runs of missing values *)

Section NanRuns.
Import ProcessClimateData RunEncoder.

Lemma enumerate_from_cons {A} i (x : A) l :
  enumerate_from i (x :: l) = (i, x) :: enumerate_from (i + 1) l.
Proof.
  unfold enumerate_from, len. cbn [length].
  rewrite Nat2Z.inj_succ, seqZ_cons by lia. simpl. do 3 f_equal. lia.
Qed.

(** The loop with its accumulator is the scan of the flags. *)
Lemma nan_runs_loop series : forall i st,
  (let st' := foldl nan_runs_step st (enumerate_from i series) in
   if in_run st' then runs st' ++ [(run_start st', i + len series - 1)]
   else runs st')
  = runs st ++ scan i (open_run st) (isna <$> series).
Proof.
  induction series as [| v series IH]; intros i st.
  - cbn [foldl enumerate_from]. unfold enumerate_from, open_run, len. simpl.
    destruct (in_run st); [| by rewrite app_nil_r].
    do 3 f_equal. lia.
  - rewrite enumerate_from_cons. cbn [foldl]. cbv zeta in IH.
    replace (i + len (v :: series) - 1) with (i + 1 + len series - 1)
      by (unfold len; simpl length; lia).
    rewrite IH. cbn [fmap list_fmap scan]. unfold nan_runs_step, open_run.
    destruct (isna v), (in_run st) eqn:Hin; simpl; rewrite ?Hin; try done.
    by rewrite <- app_assoc.
Qed.

Lemma nan_runs_scan series : _nan_runs series = scan 0 None (isna <$> series).
Proof.
  unfold _nan_runs.
  pose proof (nan_runs_loop series 0 {| runs := []; in_run := false; run_start := 0 |})
    as H.
  cbv zeta in H. rewrite Z.add_0_l in H. by rewrite H.
Qed.

Lemma scan_gap a : forall i rest,
  scan i None (replicate a false ++ rest) = scan (i + Z.of_nat a) None rest.
Proof.
  induction a as [| a IH]; intros i rest; simpl replicate; simpl app.
  - by rewrite Z.add_0_r.
  - cbn [scan]. rewrite IH. f_equal. lia.
Qed.

Lemma scan_open k : forall i s rest,
  head rest ≠ Some true ->
  scan i (Some s) (replicate k true ++ rest)
  = (s, i + Z.of_nat k - 1) :: scan (i + Z.of_nat k) None rest.
Proof.
  induction k as [| k IH]; intros i s rest Hhead; simpl replicate; simpl app.
  - rewrite Z.add_0_r. destruct rest as [| [] rest]; try done.
  - cbn [scan]. simpl default. rewrite IH by done. do 2 f_equal; [f_equal |]; lia.
Qed.

Lemma scan_run k : forall i rest,
  (0 < k)%nat -> head rest ≠ Some true ->
  scan i None (replicate k true ++ rest)
  = (i, i + Z.of_nat k - 1) :: scan (i + Z.of_nat k) None rest.
Proof.
  intros i rest Hk Hhead. destruct k as [| k]; [lia |].
  simpl replicate. simpl app. cbn [scan]. simpl default.
  rewrite scan_open by done. do 2 f_equal; [f_equal |]; lia.
Qed.

(** The scan lists the maximal runs with their positions. *)
Lemma scan_located flags : forall i, located_runs i flags (scan i None flags).
Proof.
  induction flags as [flags IH] using (induction_ltof1 _ (@length bool)).
  unfold ltof in IH. intros i.
  pose proof (gap_split flags) as Hsplit. pose proof (gap_drop flags) as Hhead.
  destruct (drop (gap flags) flags) as [| b r1] eqn:Hr1.
  - rewrite app_nil_r in Hsplit. rewrite Hsplit.
    pose proof (scan_gap (gap flags) i []) as Hscan.
    rewrite app_nil_r in Hscan. rewrite Hscan. simpl. constructor.
  - destruct b; [| done]. clear Hhead.
    set (k := leading (true :: r1)).
    assert (0 < k)%nat as Hk by (unfold k; simpl; lia).
    pose proof (leading_split (true :: r1)) as Hsplit1. fold k in Hsplit1.
    pose proof (leading_drop (true :: r1)) as Hlead. fold k in Hlead.
    pose proof (leading_le (true :: r1)) as Hle. fold k in Hle.
    assert (length flags = (gap flags + length (true :: r1))%nat) as Hlen.
    { rewrite Hsplit at 1. by rewrite length_app, length_replicate. }
    assert (length (drop k (true :: r1)) < length flags)%nat as Hshorter
      by (rewrite length_drop; lia).
    apply leading_head in Hlead.
    remember (drop k (true :: r1)) as r2 eqn:Hr2. clear Hr2.
    rewrite Hsplit, Hsplit1. rewrite scan_gap, scan_run by done.
    apply located_next; [done | done |]. by apply IH.
Qed.

Lemma lookup_blocks (a k : nat) (rest : list bool) (n : nat) :
  (replicate a false ++ replicate k true ++ rest) !! n
  = if decide (n < a)%nat then Some false
    else if decide (n < a + k)%nat then Some true
    else rest !! (n - a - k)%nat.
Proof.
  destruct (decide (n < a)%nat) as [Ha | Ha].
  - rewrite lookup_app_l by (rewrite length_replicate; lia).
    by apply lookup_replicate_2.
  - rewrite lookup_app_r by (rewrite length_replicate; lia).
    rewrite length_replicate.
    destruct (decide (n < a + k)%nat) as [Hk | Hk].
    + rewrite lookup_app_l by (rewrite length_replicate; lia).
      apply lookup_replicate_2. lia.
    + rewrite lookup_app_r by (rewrite length_replicate; lia).
      by rewrite length_replicate.
Qed.

Lemma located_lengths start flags runs :
  located_runs start flags runs ->
  maximal_runs flags ((λ r, r.2 - r.1 + 1) <$> runs).
Proof.
  induction 1 as [start a | start a k rest runs Hk Hhead _ IH].
  - constructor.
  - cbn [fmap list_fmap fst snd].
    replace (start + Z.of_nat a + Z.of_nat k - 1 - (start + Z.of_nat a) + 1)
      with (Z.of_nat k) by lia.
    by constructor.
Qed.

(** Every listed run lies inside the sequence, holds only [true], and has
    no [true] next to it on either side. *)
Lemma located_index start flags runs :
  located_runs start flags runs ->
  forall s e, (s, e) ∈ runs ->
    (start <= s <= e /\ e < start + len flags)
    /\ (forall i, s <= i <= e -> flags !! Z.to_nat (i - start) = Some true)
    /\ flags !! Z.to_nat (e + 1 - start) ≠ Some true
    /\ (start < s -> flags !! Z.to_nat (s - 1 - start) = Some false).
Proof.
  induction 1 as [start a | start a k rest runs Hk Hhead _ IH]; intros s e Hin.
  - by apply elem_of_nil in Hin.
  - assert (len (replicate a false ++ replicate k true ++ rest)
            = Z.of_nat a + Z.of_nat k + len rest) as Hlen.
    { unfold len. rewrite !length_app, !length_replicate. lia. }
    pose proof (Zle_0_nat (length rest)) as Hrest. fold (len rest) in Hrest.
    apply elem_of_cons in Hin as [Heq | Hin].
    + injection Heq as -> ->. repeat split; try lia.
      * intros i Hi. rewrite lookup_blocks.
        destruct (decide _) as [H1 | H1]; [lia |].
        destruct (decide _) as [H2 | H2]; [done | lia].
      * rewrite lookup_blocks.
        destruct (decide _) as [H1 | H1]; [done |].
        destruct (decide _) as [H2 | H2]; [lia |].
        replace (Z.to_nat _ - a - k)%nat with 0%nat by lia.
        by rewrite <- head_lookup.
      * intros Hs. rewrite lookup_blocks.
        destruct (decide _) as [H1 | H1]; [done | lia].
    + destruct (IH s e Hin) as ((Hse & He) & Hinside & Hright & Hleft).
      assert (forall i, start + Z.of_nat a + Z.of_nat k <= i ->
                (replicate a false ++ replicate k true ++ rest)
                  !! Z.to_nat (i - start)
                = rest !! Z.to_nat (i - (start + Z.of_nat a + Z.of_nat k)))
        as Hshift.
      { intros i Hi. rewrite lookup_blocks.
        destruct (decide _) as [H1 | H1]; [lia |].
        destruct (decide _) as [H2 | H2]; [lia |].
        f_equal. lia. }
      assert (start + Z.of_nat a + Z.of_nat k < s) as Hstrict.
      { destruct (decide (start + Z.of_nat a + Z.of_nat k < s)) as [| Hn]; [done |].
        exfalso. apply Hhead. rewrite head_lookup.
        rewrite <- (Hinside s) by lia. f_equal. lia. }
      repeat split; try lia.
      * intros i Hi. rewrite Hshift by lia. apply Hinside. lia.
      * by rewrite Hshift by lia.
      * intros _. rewrite Hshift by lia. by apply Hleft.
Qed.

(** Every [true] of the sequence is inside a listed run. *)
Lemma located_cover start flags runs :
  located_runs start flags runs ->
  forall n : nat, flags !! n = Some true ->
    exists s e, (s, e) ∈ runs /\ s <= start + Z.of_nat n <= e.
Proof.
  induction 1 as [start a | start a k rest runs Hk Hhead _ IH]; intros n Hn.
  - apply lookup_replicate in Hn as [? _]. done.
  - rewrite lookup_blocks in Hn.
    destruct (decide _) as [H1 | H1]; [done |].
    destruct (decide _) as [H2 | H2].
    + eexists _, _. split; [apply elem_of_cons; by left | lia].
    + destruct (IH _ Hn) as (s & e & Hin & Hse).
      exists s, e. split; [apply elem_of_cons; by right | lia].
Qed.

Lemma isna_lookup (series : list float) (n : nat) :
  (isna <$> series) !! n = Some true <-> series !! n = Some Float.nan.
Proof.
  rewrite list_lookup_fmap. destruct (series !! n) as [[v |] |]; simpl; split; done.
Qed.

Lemma isna_defined (series : list float) (n : nat) :
  (isna <$> series) !! n = Some false ->
  exists v, series !! n = Some (Some v).
Proof.
  rewrite list_lookup_fmap. destruct (series !! n) as [[v |] |]; simpl; try done.
  by exists v.
Qed.

(** X18.  [_nan_runs] lists the maximal runs of NaN of a series, from left
    to right, each by its first and last position: the runs are the blocks
    that the gaps of present values separate, their lengths are the lengths
    of the maximal runs of the NaN flags, every listed run lies inside the
    series, holds NaN only and has no NaN next to it on either side, and
    every NaN of the series is inside a listed run. *)
Theorem nan_runs_spec (series : list float) :
  located_runs 0 (isna <$> series) (_nan_runs series)
  /\ (λ r, r.2 - r.1 + 1) <$> _nan_runs series = true_runs (isna <$> series)
  /\ (forall s e, (s, e) ∈ _nan_runs series ->
        (0 <= s <= e /\ e < len series)
        /\ (forall i, s <= i <= e -> series !! Z.to_nat i = Some Float.nan)
        /\ series !! Z.to_nat (e + 1) ≠ Some Float.nan
        /\ (0 < s -> exists v, series !! Z.to_nat (s - 1) = Some (Some v)))
  /\ (forall n : nat, series !! n = Some Float.nan ->
        exists s e, (s, e) ∈ _nan_runs series /\ s <= Z.of_nat n <= e).
Proof.
  pose proof (scan_located (isna <$> series) 0) as Hloc.
  rewrite <- nan_runs_scan in Hloc.
  split; [done |]. split; [| split].
  - apply maximal_runs_unique. by eapply located_lengths.
  - intros s e Hin.
    destruct (located_index _ _ _ Hloc s e Hin) as ((Hse & He) & Hinside & Hright & Hleft).
    assert (len (isna <$> series) = len series) as Hlen
      by (unfold len; by rewrite length_fmap).
    rewrite Hlen in He. repeat split; try lia.
    + intros i Hi. apply isna_lookup. rewrite <- (Hinside i Hi). f_equal. lia.
    + intros Hnan. apply Hright. apply isna_lookup.
      rewrite <- Hnan. f_equal. lia.
    + intros Hs. apply isna_defined. rewrite <- (Hleft Hs). f_equal. lia.
  - intros n Hn. apply isna_lookup in Hn.
    destruct (located_cover _ _ _ Hloc n Hn) as (s & e & Hin & Hse).
    exists s, e. split; [done | lia].
Qed.

End NanRuns.

(** ** Retry loops *)

Section FetchYear.
Context {json : Type}.
Implicit Types (server : nat -> Requests.reply json) (w : Requests.world).



End FetchYear.

(** ** JSON output *)

Section RoundFloats.
Import GenerateWebData.







End RoundFloats.

Section SummaryAnomaly.
Import GenerateWebData.







End SummaryAnomaly.

(** ** Cleaning steps *)

Section CleanColumns.
Import ProcessClimateData.










End CleanColumns.

(** ** Cross-source statistics *)

Section CrossSource.
Import ValidateCrossSource.

Lemma dropna_abs (s : list float) : Float.dropna (abs <$> s) = Qabs <$> Float.dropna s.
Proof.
  unfold Float.dropna.
  induction s as [| [x |] s IH]; [done | |]; simpl; [f_equal |]; exact IH.
Qed.

Lemma Qsum_abs (l : list Q) : (Qabs (Float.Qsum l) <= Float.Qsum (Qabs <$> l))%Q.
Proof.
  induction l as [| x l IH].
  - apply Qle_refl.
  - change (Qabs (x + Float.Qsum l) <= Qabs x + Float.Qsum (Qabs <$> l))%Q.
    eapply Qle_trans; [apply Qabs_triangle |]. lra.
Qed.

Lemma Qsum_abs_nonneg (l : list Q) : (0 <= Float.Qsum (Qabs <$> l))%Q.
Proof.
  induction l as [| x l IH]; [apply Qle_refl |].
  change (0 <= Qabs x + Float.Qsum (Qabs <$> l))%Q.
  pose proof (Qabs_nonneg x). lra.
Qed.

(** X24.  [mae] is not negative and bounds [bias] in absolute value.  The
    two are defined together: both are numbers when some position has a
    value in both columns, and both are NaN when none has. *)
Theorem bias_within_mae (a b : list float) :
  match bias a b, mae a b with
  | Some e, Some m =>
      (Qabs e <= m)%Q /\ (0 <= m)%Q
      /\ exists (i : nat) x y, a !! i = Some (Some x) /\ b !! i = Some (Some y)
  | None, None =>
      forall (i : nat) x y, a !! i = Some (Some x) -> b !! i ≠ Some (Some y)
  | _, _ => False
  end.
Proof.
  unfold bias, mae, Float.mean. rewrite dropna_abs.
  destruct (Float.dropna (series_sub a b)) as [| d ds] eqn:Hd.
  - simpl. intros i x y Ha Hb.
    assert (series_sub a b !! i = Some (Some (Qred (x - y)))) as Hi.
    { unfold series_sub. apply lookup_zip_with_Some. by exists (Some x), (Some y). }
    assert (Qred (x - y) ∈ Float.dropna (series_sub a b)) as Hin.
    { unfold Float.dropna. apply list_elem_of_omap. eexists. split; [| done].
      by eapply list_elem_of_lookup_2. }
    rewrite Hd in Hin. by apply elem_of_nil in Hin.
  - assert (0 < inject_Z (Z.of_nat (length (d :: ds))))%Q as Hn.
    { change 0%Q with (inject_Z 0). rewrite <- Zlt_Qlt. simpl. lia. }
    destruct (Qabs <$> d :: ds) as [| e es] eqn:He; [done |].
    rewrite <- He. clear e es He.
    pose proof (Qsum_abs (d :: ds)) as Habs.
    pose proof (Qsum_abs_nonneg (d :: ds)) as Hpos.
    rewrite length_fmap, !Qred_correct.
    set (n := inject_Z (Z.of_nat (length (d :: ds)))) in *.
    set (total := Float.Qsum (d :: ds)) in *.
    set (total_abs := Float.Qsum (Qabs <$> d :: ds)) in *.
    assert (0 < / n)%Q as Hinv by by apply Qinv_lt_0_compat.
    split; [| split].
    + unfold Qdiv. rewrite Qabs_Qmult. rewrite (Qabs_pos (/ n)) by lra.
      apply Qmult_le_compat_r; [done | lra].
    + unfold Qdiv. apply Qmult_le_0_compat; [done | lra].
    + assert (d ∈ Float.dropna (series_sub a b)) as Hin
        by (rewrite Hd; apply elem_of_cons; by left).
      unfold Float.dropna in Hin.
      apply list_elem_of_omap in Hin as (v & Hv & Hsome). simpl in Hsome. subst v.
      apply list_elem_of_lookup_1 in Hv as (i & Hi).
      apply lookup_zip_with_Some in Hi as (x & y & Hsub & Hx & Hy).
      destruct x as [x |], y as [y |]; try done.
      by exists i, x, y.
Qed.

End CrossSource.
